(** * The test-runner worker: bootstrap handshake and reporter adapter

    A shallow embedding of [src/worker/worker.ts].  The worker process is
    modelled as a state record (working directory, message listeners, the
    objects it allocates, the [nextTick] queue) together with a log of every
    call it makes to the outside: [process.chdir], [register], the engine
    constructor, [process.send].  Code that can throw lives in a small
    state-and-exception monad; the external collaborators (file system,
    module loader, engine constructor, stack-trace parser) are the fields of
    a [World] record, so every statement below is quantified over them. *)

From stdpp Require Import base strings list gmap.

Local Open Scope string_scope.
Local Open Scope list_scope.
Set Warnings "-register-all,-clear-no-such-hyp".

(** ** Values *)

(** What the control messages carry in their [errors] field. *)
Inductive JsVal :=
| JUndefined
| JString (s : string)
| JArray (l : list JsVal).

(** A thrown value: anything can be thrown, and a promise can reject with
    anything.  The worker only ever reads the [stack] property of what it
    catches.  [undefined] and [null] have no properties to read; every
    other value has, and its [stack] is a string when the value is an
    [Error] and [undefined] when it has none. *)
Inductive JsError :=
| Undefined
| Null
| Thrown (stack : option string).

(** [err === undefined || err === null] *)
Definition nullish (err : JsError) : bool :=
  match err with
  | Undefined | Null => true
  | Thrown _ => false
  end.

(** The error raised when property [what] of [undefined] or of [null] is
    read.  Of its [stack] the first line is kept, the one that names the
    error; the frames listed below it depend on where the code runs. *)
Definition TypeError_of (holder what : string) : JsError :=
  Thrown (Some ("TypeError: Cannot read properties of " +:+ holder +:+
                " (reading '" +:+ what +:+ "')")).

Definition TypeError (what : string) : JsError := TypeError_of "undefined" what.

(** [WorkerMeta] of [./types]: one target descriptor. *)
Record WorkerMeta := {
  meta_id : string;
  meta_vitestNodePath : string;
  meta_configFile : option string;
  meta_workspaceFile : option string;
}.

(** [WorkerRunnerOptions]: the inbound control message.  [msg_loader] and
    [msg_meta] are only read when [msg_type] is ['init']. *)
Record Message := {
  msg_type : string;
  msg_loader : option string;
  msg_meta : list WorkerMeta;
}.

(** ** The engine, as far as the worker touches it *)

Record RegExp := { source : string; flags : string }.

(** [RegExp.prototype.toString] *)
Definition RegExp_toString (r : RegExp) : string :=
  "/" +:+ source r +:+ "/" +:+ flags r.

Record ResolvedConfig := { setupFiles : option (list string) }.

Definition SourceMap := string.

Record ParsedStack := {
  ps_method : string;
  ps_file : string;
  ps_line : nat;
  ps_column : nat;
}.

(** An error object of a task result; [eo_stacks] is the field the reporter
    overwrites. *)
Record ErrorObject := {
  eo_message : string;
  eo_stack : option string;
  eo_stacks : option (list ParsedStack);
}.

Record WorkspaceProject := {
  (** reference to the project's configuration object *)
  project_config : nat;
  getBrowserSourceMapModuleById : string → option SourceMap;
}.

(** A [Vitest] instance.  Configuration objects are held by reference
    ([cfg_objects] is the engine's own object store), so the root
    configuration and a project's configuration may be one and the same
    object. *)
Record Vitest := {
  cfg_objects : nat → ResolvedConfig;
  config : nat;
  projects : list WorkspaceProject;
  (** [configOverride.testNamePattern] *)
  testNamePattern : option RegExp;
  getProjectByTaskId : string → WorkspaceProject;
}.

(** The options object handed to [createVitest].  Its [reporters] entry is
    a reference to the freshly made adapter; it is recorded with the call
    (see [IO_createVitest]) rather than shown to the constructor. *)
Record UserConfig := {
  uc_config : option string;
  uc_workspace : option string;
  uc_watch : bool;
  uc_api : bool;
  uc_root : string;
  uc_ui : bool;
  uc_includeTaskLocation : bool;
}.

(** ** Task results *)

(** An element of [result.errors]: the reporter tests
    [typeof error === 'object' && error]. *)
Inductive ErrorItem :=
| ErrNotObject (v : JsVal)
| ErrObject (ref : nat).

Record TaskResult := {
  tr_state : string;
  tr_errors : option (list ErrorItem);
}.

(** [TaskResultPack = [id, result, meta]] *)
Record TaskResultPack := {
  pack_id : string;
  pack_result : option TaskResult;
  pack_meta : string;
}.

(** The same batch after [v8.serialize]: references to error objects are
    replaced by the objects' contents at the time of the call. *)
Inductive SerializedError :=
| SerNotObject (v : JsVal)
| SerObject (e : ErrorObject).

Record SerializedPack := {
  spack_id : string;
  spack_result : option (string * option (list SerializedError));
  spack_meta : string;
}.

(** [File] tasks, user console logs and the [unknown] errors of a run are
    opaque to the worker: it passes them on untouched. *)
Definition File := string.
Definition UserConsoleLog := string.
Definition Unknown := JsVal.

(** ** Outbound traffic *)

(** [process.send({ type, errors })] *)
Record ControlMessage := {
  out_type : string;
  out_errors : JsVal;
}.

(** [BirpcEvents] of [../api/rpc]; the first argument is [this.id], which
    is [undefined] until the reporter is initialised. *)
Inductive RpcEvent :=
| rpc_onConsoleLog (id : option string) (log : UserConsoleLog)
| rpc_onTaskUpdate (id : option string) (packs : list SerializedPack)
| rpc_onFinished (id : option string) (files : option (list File))
    (errors : option (list Unknown)) (collecting : bool)
| rpc_onCollected (id : option string) (files : option (list File)) (collecting : bool)
| rpc_onWatcherStart (id : option string) (files : option (list File))
    (errors : option (list Unknown)) (collecting : bool)
| rpc_onWatcherRerun (id : option string) (files : list string)
    (trigger : option string) (collecting : bool).

(** Every call that leaves the module, in the order it is made. *)
Inductive IOEvent :=
| IO_register (loader : string)
| IO_chdir (dir : string)
| IO_import (path : string)
| IO_createVitest (opts : UserConfig) (reporter : nat)
| IO_createWorkerRPC (vitestById : gmap string nat)
| IO_send (m : ControlMessage)
| IO_post (channel : nat) (ev : RpcEvent)
| IO_dispatch (channel : nat) (m : Message).

(** ** Process state *)

Record VSCodeReporter := {
  this_rpc : option nat;
  this_ctx : option nat;
  this_id : option string;
}.

Inductive Listener :=
| L_init
| L_rpc (channel : nat).

(** The closure handed to [nextTick] by [onFinished]: it captures [this],
    [files], [errors] and the already computed [collecting]. *)
Record Tick := {
  tick_this : nat;
  tick_files : option (list File);
  tick_errors : option (list Unknown);
  tick_collecting : bool;
}.

Record State := {
  (** [process.cwd()] *)
  process_cwd : string;
  (** the module constant [cwd] *)
  cwd : string;
  (** listeners of the process's ['message'] event *)
  listeners : list Listener;
  (** objects, addressed by their position *)
  engines : list Vitest;
  reporters : list VSCodeReporter;
  channels : list (gmap string nat);
  error_objects : nat → ErrorObject;
  (** the [nextTick] queue, oldest first *)
  ticks : list Tick;
  (** everything done to the outside so far, oldest first *)
  log : list IOEvent;
}.

(** ** External collaborators *)

Record World := {
  (** [dirname] of [pathe] *)
  dirname : string → string;
  (** [setupFilePath] of [../constants] *)
  setupFilePath : string;
  (** [process.chdir(dir)], called while the process is in directory
      [from], throws when the directory cannot be entered *)
  chdir_fails : string → string → option JsError;
  (** what [process.cwd()] returns once [process.chdir(dir)], called in
      directory [from], has succeeded: a relative [dir] is resolved
      against [from] *)
  chdir_to : string → string → string;
  (** [register] of [node:module] *)
  register_fails : string → option JsError;
  (** [await import(path)] *)
  import_fails : string → option JsError;
  (** [createVitest] of the module at [path], for the options it is
      called with; the target's directory is among them, as [root] *)
  createVitest : string → UserConfig → JsError + Vitest;
  (** [parseErrorStacktrace] of [@vitest/utils/source-map] *)
  parseErrorStacktrace :
    ErrorObject → (string → option SourceMap) → list ParsedStack;
}.

(** ** A state-and-exception monad *)

Inductive Outcome (A : Type) :=
| Ok (a : A) (st : State)
| Throw (err : JsError) (st : State).
Arguments Ok {A} a st.
Arguments Throw {A} err st.

Definition M (A : Type) : Type := State → Outcome A.

Definition ret {A} (a : A) : M A := fun st => Ok a st.

Definition bind {A B} (m : M A) (k : A → M B) : M B :=
  fun st =>
    match m st with
    | Ok a st' => k a st'
    | Throw err st' => Throw err st'
    end.

Definition throw {A} (err : JsError) : M A := fun st => Throw err st.

(** [try { m } catch (err) { ... }], with the handler left to the caller *)
Definition try {A} (m : M A) : M (JsError + A) :=
  fun st =>
    match m st with
    | Ok a st' => Ok (inr a) st'
    | Throw err st' => Ok (inl err) st'
    end.

Definition get : M State := fun st => Ok st st.

Notation "'let*' x ':=' m 'in' k" := (bind m (fun x => k))
  (at level 10, x name, m at level 100, k at level 200, only parsing).
Notation "m ';;;' k" := (bind m (fun _ => k))
  (at level 100, k at level 200, right associativity, only parsing).

(** The final state of a computation, whichever way it ends. *)
Definition final {A} (o : Outcome A) : State :=
  match o with
  | Ok _ st => st
  | Throw _ st => st
  end.

Fixpoint forEach {A} (l : list A) (f : A → M unit) : M unit :=
  match l with
  | [] => ret tt
  | x :: l' => f x ;;; forEach l' f
  end.

(** ** State updates *)

Definition set_process_cwd (dir : string) (st : State) : State :=
  {| process_cwd := dir; cwd := cwd st; listeners := listeners st;
     engines := engines st; reporters := reporters st;
     channels := channels st; error_objects := error_objects st;
     ticks := ticks st; log := log st |}.

Definition set_listeners (ls : list Listener) (st : State) : State :=
  {| process_cwd := process_cwd st; cwd := cwd st; listeners := ls;
     engines := engines st; reporters := reporters st;
     channels := channels st; error_objects := error_objects st;
     ticks := ticks st; log := log st |}.

Definition set_engines (es : list Vitest) (st : State) : State :=
  {| process_cwd := process_cwd st; cwd := cwd st; listeners := listeners st;
     engines := es; reporters := reporters st;
     channels := channels st; error_objects := error_objects st;
     ticks := ticks st; log := log st |}.

Definition set_reporters (rs : list VSCodeReporter) (st : State) : State :=
  {| process_cwd := process_cwd st; cwd := cwd st; listeners := listeners st;
     engines := engines st; reporters := rs;
     channels := channels st; error_objects := error_objects st;
     ticks := ticks st; log := log st |}.

Definition set_channels (cs : list (gmap string nat)) (st : State) : State :=
  {| process_cwd := process_cwd st; cwd := cwd st; listeners := listeners st;
     engines := engines st; reporters := reporters st;
     channels := cs; error_objects := error_objects st;
     ticks := ticks st; log := log st |}.

Definition set_error_objects (h : nat → ErrorObject) (st : State) : State :=
  {| process_cwd := process_cwd st; cwd := cwd st; listeners := listeners st;
     engines := engines st; reporters := reporters st;
     channels := channels st; error_objects := h;
     ticks := ticks st; log := log st |}.

Definition set_ticks (q : list Tick) (st : State) : State :=
  {| process_cwd := process_cwd st; cwd := cwd st; listeners := listeners st;
     engines := engines st; reporters := reporters st;
     channels := channels st; error_objects := error_objects st;
     ticks := q; log := log st |}.

Definition set_log (evs : list IOEvent) (st : State) : State :=
  {| process_cwd := process_cwd st; cwd := cwd st; listeners := listeners st;
     engines := engines st; reporters := reporters st;
     channels := channels st; error_objects := error_objects st;
     ticks := ticks st; log := evs |}.

Definition modify (f : State → State) : M unit := fun st => Ok tt (f st).

(** Record a call to the outside. *)
Definition emit (ev : IOEvent) : M unit :=
  modify (fun st => set_log (log st ++ [ev]) st).

(** ** Node primitives *)

(** [process.chdir(dir)] *)
Definition chdir (w : World) (dir : string) : M unit :=
  emit (IO_chdir dir) ;;;
  let* st := get in
  match chdir_fails w (process_cwd st) dir with
  | Some err => throw err
  | None => modify (set_process_cwd (chdir_to w (process_cwd st) dir))
  end.

(** [err.stack]: reading a property of [undefined] or [null] throws a
    [TypeError]. *)
Definition get_stack (err : JsError) : M (option string) :=
  match err with
  | Undefined => throw (TypeError_of "undefined" "stack")
  | Null => throw (TypeError_of "null" "stack")
  | Thrown stack => ret stack
  end.

(** [register(loader)] *)
Definition register (w : World) (loader : string) : M unit :=
  emit (IO_register loader) ;;;
  match register_fails w loader with
  | Some err => throw err
  | None => ret tt
  end.

(** [process.send!(message)] *)
Definition send (m : ControlMessage) : M unit := emit (IO_send m).

(** [process.on('message', l)] *)
Definition on_message (l : Listener) : M unit :=
  modify (fun st => set_listeners (listeners st ++ [l]) st).

Definition Listener_eqb (a b : Listener) : bool :=
  match a, b with
  | L_init, L_init => true
  | L_rpc c, L_rpc d => Nat.eqb c d
  | _, _ => false
  end.

(** Drop the first occurrence of [l]. *)
Fixpoint remove_first (l : Listener) (ls : list Listener) : list Listener :=
  match ls with
  | [] => []
  | x :: ls' => if Listener_eqb x l then ls' else x :: remove_first l ls'
  end.

(** [process.off('message', l)] removes the most recently added instance
    of the listener. *)
Definition off_message (l : Listener) : M unit :=
  modify (fun st =>
    set_listeners (reverse (remove_first l (reverse (listeners st)))) st).

(** [nextTick(callback)] *)
Definition nextTick (t : Tick) : M unit :=
  modify (fun st => set_ticks (ticks st ++ [t]) st).

(** ** Objects *)

Definition read_reporter (this : nat) : M VSCodeReporter :=
  fun st =>
    match reporters st !! this with
    | Some r => Ok r st
    | None => Throw (TypeError "this") st
    end.

Definition write_reporter (this : nat) (r : VSCodeReporter) : M unit :=
  modify (fun st => set_reporters (<[this := r]> (reporters st)) st).

Definition read_engine (ctx : nat) : M Vitest :=
  fun st =>
    match engines st !! ctx with
    | Some e => Ok e st
    | None => Throw (TypeError "ctx") st
    end.

Definition write_engine (ctx : nat) (e : Vitest) : M unit :=
  modify (fun st => set_engines (<[ctx := e]> (engines st)) st).

(** [this.ctx], about to have property [what] read from it *)
Definition this_engine (this : nat) (what : string) : M Vitest :=
  let* r := read_reporter this in
  match this_ctx r with
  | Some ctx => read_engine ctx
  | None => throw (TypeError what)
  end.

(** [cfg.setupFiles = [...cfg.setupFiles || [], setupFilePath]] on the
    configuration object [cfg] of engine [e] *)
Definition append_setupFile (w : World) (cfg : nat) (e : Vitest) : Vitest :=
  {| cfg_objects := fun ref =>
       if decide (ref = cfg)
       then {| setupFiles :=
                 Some (default [] (setupFiles (cfg_objects e cfg)) ++ [setupFilePath w]) |}
       else cfg_objects e ref;
     config := config e;
     projects := projects e;
     testNamePattern := testNamePattern e;
     getProjectByTaskId := getProjectByTaskId e |}.

(** The two assignments of [VSCodeReporter.initVitest]: the root
    configuration first, then [ctx.projects.forEach]. *)
Definition inject_setupFile (w : World) (e : Vitest) : Vitest :=
  foldl (fun e' project => append_setupFile w (project_config project) e')
        (append_setupFile w (config e) e)
        (projects e).

Definition set_stacks (frames : list ParsedStack) (e : ErrorObject) : ErrorObject :=
  {| eo_message := eo_message e; eo_stack := eo_stack e; eo_stacks := Some frames |}.

(** [error.stacks = parseErrorStacktrace(error, { getSourceMap })] on the
    error object at [ref], with [getSourceMap] going to [project] *)
Definition with_stacks (w : World) (project : WorkspaceProject) (ref : nat)
    (h : nat → ErrorObject) : nat → ErrorObject :=
  fun r =>
    if decide (r = ref)
    then set_stacks
           (parseErrorStacktrace w (h ref)
              (fun file => getBrowserSourceMapModuleById project file))
           (h ref)
    else h r.

(** [v8.serialize] of a batch of packs *)
Definition serialize_error (h : nat → ErrorObject) (item : ErrorItem) : SerializedError :=
  match item with
  | ErrNotObject v => SerNotObject v
  | ErrObject ref => SerObject (h ref)
  end.

Definition serialize_pack (h : nat → ErrorObject) (p : TaskResultPack) : SerializedPack :=
  {| spack_id := pack_id p;
     spack_result :=
       (fun r => (tr_state r, fmap (M := list) (serialize_error h) <$> tr_errors r))
         <$> pack_result p;
     spack_meta := pack_meta p |}.

(** ** The reporter adapter *)

(** Modelled from the spec: the event stubs of the channel, which
    [createWorkerRPC] of [./rpc] builds and which is not among the sources.
    An event is fire-and-forget: calling the stub is one send over the
    transport, made at once, so events leave in the order of the calls. *)
Definition post_event (channel : nat) (ev : RpcEvent) : M unit :=
  emit (IO_post channel ev).

Module Reporter.

(** [new VSCodeReporter()]: all three fields start out [undefined]. *)
Definition new : M nat :=
  fun st =>
    Ok (length (reporters st))
       (set_reporters
          (reporters st ++ [{| this_rpc := None; this_ctx := None; this_id := None |}])
          st).

(** [this.rpc.method(this.id, ...)] *)
Definition rpc_post (this : nat) (method : string)
    (ev : option string → RpcEvent) : M unit :=
  let* r := read_reporter this in
  match this_rpc r with
  | Some channel => post_event channel (ev (this_id r))
  | None => throw (TypeError method)
  end.

(** [this.rpc], checked before the arguments of the call are evaluated *)
Definition rpc_defined (this : nat) (method : string) : M unit :=
  let* r := read_reporter this in
  match this_rpc r with
  | Some _ => ret tt
  | None => throw (TypeError method)
  end.

Definition isCollecting (this : nat) : M bool :=
  let* ctx := this_engine this "configOverride" in
  ret (match testNamePattern ctx with
       | Some pattern => bool_decide (RegExp_toString pattern = "/$a/")
       | None => false
       end).

Definition initVitest (w : World) (this ctx : nat) (id : string) : M unit :=
  let* r := read_reporter this in
  write_reporter this
    {| this_rpc := this_rpc r; this_ctx := Some ctx; this_id := Some id |} ;;;
  let* e := read_engine ctx in
  write_engine ctx (inject_setupFile w e).

Definition initRpc (this rpc : nat) : M unit :=
  let* r := read_reporter this in
  write_reporter this
    {| this_rpc := Some rpc; this_ctx := this_ctx r; this_id := this_id r |}.

Definition onUserConsoleLog (this : nat) (log : UserConsoleLog) : M unit :=
  rpc_post this "onConsoleLog" (fun id => rpc_onConsoleLog id log).

(** The body of [result?.errors?.forEach]. *)
Definition resolve_stacks (w : World) (project : WorkspaceProject)
    (error : ErrorItem) : M unit :=
  match error with
  | ErrObject ref =>
      modify (fun st =>
        set_error_objects (with_stacks w project ref (error_objects st)) st)
  | ErrNotObject _ => ret tt
  end.

(** The body of [packs.forEach]. *)
Definition resolve_pack (w : World) (this : nat) (pack : TaskResultPack) : M unit :=
  let* ctx := this_engine this "getProjectByTaskId" in
  let project := getProjectByTaskId ctx (pack_id pack) in
  match pack_result pack with
  | Some result =>
      match tr_errors result with
      | Some errors => forEach errors (resolve_stacks w project)
      | None => ret tt
      end
  | None => ret tt
  end.

Definition onTaskUpdate (w : World) (this : nat) (packs : list TaskResultPack) : M unit :=
  forEach packs (resolve_pack w this) ;;;
  let* st := get in
  rpc_post this "onTaskUpdate"
    (fun id => rpc_onTaskUpdate id (serialize_pack (error_objects st) <$> packs)).

Definition onFinished (this : nat) (files : option (list File))
    (errors : option (list Unknown)) : M unit :=
  let* collecting := isCollecting this in
  nextTick {| tick_this := this; tick_files := files;
              tick_errors := errors; tick_collecting := collecting |}.

Definition onCollected (this : nat) (files : option (list File)) : M unit :=
  rpc_defined this "onCollected" ;;;
  let* collecting := isCollecting this in
  rpc_post this "onCollected" (fun id => rpc_onCollected id files collecting).

Definition onWatcherStart (this : nat) (files : option (list File))
    (errors : option (list Unknown)) : M unit :=
  rpc_defined this "onWatcherStart" ;;;
  let* collecting := isCollecting this in
  rpc_post this "onWatcherStart"
    (fun id => rpc_onWatcherStart id files errors collecting).

Definition onWatcherRerun (this : nat) (files : list string)
    (trigger : option string) : M unit :=
  rpc_defined this "onWatcherRerun" ;;;
  let* collecting := isCollecting this in
  rpc_post this "onWatcherRerun"
    (fun id => rpc_onWatcherRerun id files trigger collecting).

End Reporter.

(** ** The scheduler *)

(** The callback [onFinished] hands to [nextTick]. *)
Definition run_tick (t : Tick) : M unit :=
  Reporter.rpc_post (tick_this t) "onFinished"
    (fun id => rpc_onFinished id (tick_files t) (tick_errors t) (tick_collecting t)).

Fixpoint run_queue (q : list Tick) : M unit :=
  match q with
  | [] => ret tt
  | t :: q' =>
      modify (fun st => set_ticks (drop 1 (ticks st)) st) ;;;
      run_tick t ;;;
      run_queue q'
  end.

(** The end of the current synchronous run: Node drains the [nextTick]
    queue, oldest callback first. *)
Definition process_ticks : M unit :=
  let* st := get in
  run_queue (ticks st).

(** ** Worker bootstrap *)

(** What [initVitest] returns: [{ vitest, reporter, meta }]. *)
Record Entry := {
  entry_vitest : nat;
  entry_reporter : nat;
  entry_meta : WorkerMeta;
}.

Definition vitest_options (w : World) (meta : WorkerMeta) : UserConfig :=
  {| uc_config := meta_configFile meta;
     uc_workspace := meta_workspaceFile meta;
     uc_watch := true;
     uc_api := false;
     uc_root := dirname w (meta_id meta);
     uc_ui := false;
     uc_includeTaskLocation := true |}.

(** [await import(path)] *)
Definition import (w : World) (path : string) : M unit :=
  emit (IO_import path) ;;;
  match import_fails w path with
  | Some err => throw err
  | None => ret tt
  end.

(** The engine object returned by a successful [createVitest]. *)
Definition new_engine (e : Vitest) : M nat :=
  fun st => Ok (length (engines st)) (set_engines (engines st ++ [e]) st).

Definition initVitest (w : World) (meta : WorkerMeta) : M Entry :=
  import w (meta_vitestNodePath meta) ;;;
  let* reporter := Reporter.new in
  emit (IO_createVitest (vitest_options w meta) reporter) ;;;
  match createVitest w (meta_vitestNodePath meta) (vitest_options w meta) with
  | inl err => throw err
  | inr e =>
      let* vitest := new_engine e in
      Reporter.initVitest w reporter vitest (meta_id meta) ;;;
      ret {| entry_vitest := vitest; entry_reporter := reporter; entry_meta := meta |}
  end.

(** [Object.fromEntries]: a later entry replaces an earlier one with the
    same key. *)
Definition fromEntries (kvs : list (string * nat)) : gmap string nat :=
  foldl (fun m kv => <[kv.1 := kv.2]> m) ∅ kvs.

(** Modelled from the spec: [createWorkerRPC] of [./rpc], which is not
    among the sources.  The channel is one object, keyed by the identities
    of the engines it serves; it is built on the transport it is given, so
    it subscribes to the process's messages through [on] when it is made
    and sends its events through [post]. *)
Definition createWorkerRPC (vitestById : gmap string nat) : M nat :=
  emit (IO_createWorkerRPC vitestById) ;;;
  let* st := get in
  modify (set_channels (channels st ++ [vitestById])) ;;;
  on_message (L_rpc (length (channels st))) ;;;
  ret (length (channels st)).

(** [String(v)] for a string or [undefined] *)
Definition String_of (v : option string) : string :=
  match v with
  | Some s => s
  | None => "undefined"
  end.

(** [error(err)]: the argument [String(err.stack)] is evaluated before
    anything is sent. *)
Definition error (err : JsError) : M unit :=
  let* stack := get_stack err in
  send {| out_type := "error";
          out_errors := JArray [JString ""; JString (String_of stack)] |}.

(** One entry of the startup error list: [[meta.id, stack]], where [stack]
    is what [err.stack] gave *)
Definition error_entry (meta : WorkerMeta) (stack : option string) : JsVal :=
  JArray [JString (meta_id meta);
          match stack with
          | Some s => JString s
          | None => JUndefined
          end].

(** [for (const meta of data.meta)], with the two arrays it fills.  The
    handler of the inner [catch] reads [err.stack], and what that throws
    leaves the loop. *)
Fixpoint init_loop (w : World) (metas : list WorkerMeta)
    (vitest : list Entry) (errors : list JsVal) : M (list Entry * list JsVal) :=
  match metas with
  | [] => ret (vitest, errors)
  | meta :: rest =>
      chdir w (dirname w (meta_id meta)) ;;;
      let* r := try (initVitest w meta) in
      match r with
      | inr v => init_loop w rest (vitest ++ [v]) errors
      | inl err =>
          let* stack := get_stack err in
          init_loop w rest vitest (errors ++ [error_entry meta stack])
      end
  end.

(** The body of the outer [try] of [init]. *)
Definition init_try (w : World) (data : Message) : M unit :=
  match msg_loader data with
  | Some loader => if decide (loader = "") then ret tt else register w loader
  | None => ret tt
  end ;;;
  let* r := init_loop w (msg_meta data) [] [] in
  let vitest := r.1 in
  let errors := r.2 in
  let* st := get in
  chdir w (cwd st) ;;;
  match vitest with
  | [] => send {| out_type := "error"; out_errors := JArray errors |}
  | _ :: _ =>
      let vitestById :=
        fromEntries ((fun v => (meta_id (entry_meta v), entry_vitest v)) <$> vitest) in
      let* rpc := createWorkerRPC vitestById in
      forEach vitest (fun v => Reporter.initRpc (entry_reporter v) rpc) ;;;
      send {| out_type := "ready"; out_errors := JArray errors |}
  end.

(** The ['message'] listener [init].  The handler is taken as one step of
    the process: it yields only at its [await]s, inside [initVitest], and
    what an engine that is already built does in the meantime is not part
    of it.  What [error] throws inside the outer [catch] is caught by
    nothing: the handler, an [async] function, rejects with it. *)
Definition init (w : World) (message : Message) : M unit :=
  if decide (msg_type message = "init") then
    off_message L_init ;;;
    let* r := try (init_try w message) in
    match r with
    | inl err => error err
    | inr _ => ret tt
    end
  else ret tt.

(** One inbound message: every listener registered when it arrives is
    called.  What the channel's own listener does with it is outside this
    module; the hand-over is recorded.  A rejection of [init] is nobody's
    to handle and is shown as the outcome of the delivery. *)
Definition handle (w : World) (m : Message) (l : Listener) : M unit :=
  match l with
  | L_init => init w m
  | L_rpc channel => emit (IO_dispatch channel m)
  end.

Definition deliver (w : World) (m : Message) : M unit :=
  let* st := get in
  forEach (listeners st) (handle w m).

(** The state in which the module leaves the process once loaded in
    directory [dir]: [const cwd = process.cwd()] and
    [process.on('message', init)]. *)
Definition load (dir : string) (heap : nat → ErrorObject) : State :=
  {| process_cwd := dir; cwd := dir; listeners := [L_init];
     engines := []; reporters := []; channels := [];
     error_objects := heap; ticks := []; log := [] |}.

(** ** Reading the log *)

(** The control messages among the calls of a log. *)
Fixpoint control_messages (evs : list IOEvent) : list ControlMessage :=
  match evs with
  | [] => []
  | IO_send m :: evs' => m :: control_messages evs'
  | _ :: evs' => control_messages evs'
  end.

(** The events posted over the RPC channel. *)
Fixpoint rpc_events (evs : list IOEvent) : list RpcEvent :=
  match evs with
  | [] => []
  | IO_post _ ev :: evs' => ev :: rpc_events evs'
  | _ :: evs' => rpc_events evs'
  end.

Definition chdirs (evs : list IOEvent) : list string :=
  omap (fun ev => match ev with IO_chdir dir => Some dir | _ => None end) evs.

Definition imports (evs : list IOEvent) : list string :=
  omap (fun ev => match ev with IO_import path => Some path | _ => None end) evs.

Definition channels_made (evs : list IOEvent) : list (gmap string nat) :=
  omap (fun ev => match ev with IO_createWorkerRPC m => Some m | _ => None end) evs.

(** ** What a run of the bootstrap amounts to

    The functions below describe, without the monad, what the loop of
    [init] leaves behind when it runs to its end: they are tied to
    [init_loop] and [init] by the lemmas [init_loop_app], [init_loop_ok]
    and [init_ok]. *)

(** Engine construction for one target: the import, then [createVitest]. *)
Definition construct (w : World) (meta : WorkerMeta) : JsError + Vitest :=
  match import_fails w (meta_vitestNodePath meta) with
  | Some err => inl err
  | None => createVitest w (meta_vitestNodePath meta) (vitest_options w meta)
  end.

Definition failed (w : World) (meta : WorkerMeta) : bool :=
  match construct w meta with
  | inl _ => true
  | inr _ => false
  end.

Definition constructed (w : World) (meta : WorkerMeta) : bool :=
  negb (failed w meta).

(** The directory the process is in after entering the directories of
    [metas] one after the other, starting in [dir]. *)
Definition loop_cwd (w : World) (metas : list WorkerMeta) (dir : string) : string :=
  foldl (fun from meta => chdir_to w from (dirname w (meta_id meta))) dir metas.

(** Starting in [dir], [process.chdir] into the directory of each target
    of [metas] in turn succeeds. *)
Fixpoint enters (w : World) (dir : string) (metas : list WorkerMeta) : Prop :=
  match metas with
  | [] => True
  | meta :: rest =>
      chdir_fails w dir (dirname w (meta_id meta)) = None ∧
      enters w (chdir_to w dir (dirname w (meta_id meta))) rest
  end.

(** The inner [catch] can read the [stack] of whatever the construction
    of [meta] throws: the target is built, or fails with a value that is
    neither [undefined] nor [null]. *)
Definition caught (w : World) (meta : WorkerMeta) : Prop :=
  ∀ err, construct w meta = inl err → nullish err = false.

Definition blank : VSCodeReporter :=
  {| this_rpc := None; this_ctx := None; this_id := None |}.

(** The local array [errors] once the loop is over.  (A construction that
    fails with [undefined] or [null] ends the loop: see [caught].) *)
Fixpoint startup_errors (w : World) (metas : list WorkerMeta) : list JsVal :=
  match metas with
  | [] => []
  | meta :: rest =>
      match construct w meta with
      | inl (Thrown stack) => error_entry meta stack :: startup_errors w rest
      | inl _ => []
      | inr _ => startup_errors w rest
      end
  end.

Fixpoint new_engines (w : World) (metas : list WorkerMeta) : list Vitest :=
  match metas with
  | [] => []
  | meta :: rest =>
      match construct w meta with
      | inl _ => new_engines w rest
      | inr e => inject_setupFile w e :: new_engines w rest
      end
  end.

(** The adapters allocated by the loop; [neng] is the reference the next
    engine will get. *)
Fixpoint new_reporters (w : World) (metas : list WorkerMeta) (neng : nat)
    : list VSCodeReporter :=
  match metas with
  | [] => []
  | meta :: rest =>
      match import_fails w (meta_vitestNodePath meta) with
      | Some _ => new_reporters w rest neng
      | None =>
          match construct w meta with
          | inl _ => blank :: new_reporters w rest neng
          | inr _ =>
              {| this_rpc := None; this_ctx := Some neng; this_id := Some (meta_id meta) |}
              :: new_reporters w rest (S neng)
          end
      end
  end.

(** The local array [vitest] once the loop is over. *)
Fixpoint new_entries (w : World) (metas : list WorkerMeta) (neng nrep : nat)
    : list Entry :=
  match metas with
  | [] => []
  | meta :: rest =>
      match import_fails w (meta_vitestNodePath meta) with
      | Some _ => new_entries w rest neng nrep
      | None =>
          match construct w meta with
          | inl _ => new_entries w rest neng (S nrep)
          | inr _ =>
              {| entry_vitest := neng; entry_reporter := nrep; entry_meta := meta |}
              :: new_entries w rest (S neng) (S nrep)
          end
      end
  end.

Fixpoint loop_log (w : World) (metas : list WorkerMeta) (nrep : nat) : list IOEvent :=
  match metas with
  | [] => []
  | meta :: rest =>
      IO_chdir (dirname w (meta_id meta)) :: IO_import (meta_vitestNodePath meta) ::
      match import_fails w (meta_vitestNodePath meta) with
      | Some _ => loop_log w rest nrep
      | None => IO_createVitest (vitest_options w meta) nrep :: loop_log w rest (S nrep)
      end
  end.

Definition set_rpc (rpc : nat) (r : VSCodeReporter) : VSCodeReporter :=
  {| this_rpc := Some rpc; this_ctx := this_ctx r; this_id := this_id r |}.

(** [vitest.forEach(v => v.reporter.initRpc(rpc))] on the adapter store *)
Definition wire (rpc : nat) (refs : list nat) (rs : list VSCodeReporter)
    : list VSCodeReporter :=
  foldl (fun rs' ref => alter (set_rpc rpc) ref rs') rs refs.

Definition loader_log (data : Message) : list IOEvent :=
  match msg_loader data with
  | Some loader => if decide (loader = "") then [] else [IO_register loader]
  | None => []
  end.

Definition loader_ok (w : World) (data : Message) : Prop :=
  match msg_loader data with
  | Some loader => if decide (loader = "") then True else register_fails w loader = None
  | None => True
  end.

(** Nothing reaches the outer [catch] of [init]: the loader, if any,
    registers, every target's directory can be entered, no construction
    fails with [undefined] or [null], and the directory the module was
    loaded in can be entered again. *)
Definition no_toplevel_failure (w : World) (st : State) (data : Message) : Prop :=
  loader_ok w data ∧
  enters w (process_cwd st) (msg_meta data) ∧
  Forall (caught w) (msg_meta data) ∧
  chdir_fails w (loop_cwd w (msg_meta data) (process_cwd st)) (cwd st) = None.

Definition vitestById_of (vitest : list Entry) : gmap string nat :=
  fromEntries ((fun v => (meta_id (entry_meta v), entry_vitest v)) <$> vitest).

Definition listeners_after_off (ls : list Listener) : list Listener :=
  reverse (remove_first L_init (reverse ls)).

(** ** What [onTaskUpdate] amounts to *)




(** ** What [initVitest] does to the configuration objects *)

(** The configuration objects [initVitest] assigns to, in order. *)
Definition config_refs (e : Vitest) : list nat :=
  config e :: (project_config <$> projects e).

Definition occurrences (cfg : nat) (refs : list nat) : nat :=
  length (filter (fun ref => ref = cfg) refs).

(** ** A concrete worker

    [target_a] has a configuration file, [target_b] and [target_c] have
    none and their engines cannot be built, the directory of [target_gone]
    no longer exists, the configuration file of [target_u] rejects
    without a reason, so that [createVitest] rejects with [undefined], and
    that of [target_s] throws a string, which has no [stack].  The
    identity of [target_here] is a relative path.  The loader
    ["bad-loader"] cannot be registered. *)

Definition no_source_maps : string → option SourceMap := fun _ => None.

Definition core_project : WorkspaceProject :=
  {| project_config := 0; getBrowserSourceMapModuleById := no_source_maps |}.

Definition browser_project : WorkspaceProject :=
  {| project_config := 1; getBrowserSourceMapModuleById := no_source_maps |}.

(** An engine whose first project shares the root configuration object. *)
Definition example_engine : Vitest :=
  {| cfg_objects := fun ref =>
       if decide (ref = 1) then {| setupFiles := Some ["./own-setup.ts"] |}
       else {| setupFiles := None |};
     config := 0;
     projects := [core_project; browser_project];
     testNamePattern := None;
     getProjectByTaskId := fun _ => core_project |}.

Definition example_world : World :=
  {| dirname := fun path =>
       if decide (path = "/a/vitest.config.ts") then "/a"
       else if decide (path = "/b/vitest.config.ts") then "/b"
       else if decide (path = "/c/vitest.config.ts") then "/c"
       else if decide (path = "/gone/vitest.config.ts") then "/gone"
       else if decide (path = "/u/vitest.config.ts") then "/u"
       else if decide (path = "/s/vitest.config.ts") then "/s"
       else ".";
     setupFilePath := "/ext/dist/setupFile.mjs";
     chdir_fails := fun _ dir =>
       if decide (dir = "/gone")
       then Some (Thrown (Some "Error: ENOENT: no such file or directory, chdir '/gone'"))
       else None;
     chdir_to := fun from dir => if decide (dir = ".") then from else dir;
     register_fails := fun loader =>
       if decide (loader = "bad-loader")
       then Some (Thrown (Some "Error: Cannot find package 'bad-loader'"))
       else None;
     import_fails := fun _ => None;
     createVitest := fun _ opts =>
       match uc_config opts with
       | Some file =>
           if decide (file = "/u/vitest.config.ts") then inl Undefined
           else if decide (file = "/s/vitest.config.ts") then inl (Thrown None)
           else inr example_engine
       | None => inl (Thrown (Some "Error: no config"))
       end;
     parseErrorStacktrace := fun e _ =>
       match eo_stack e with
       | Some s => [{| ps_method := s; ps_file := "/a/x.test.ts"; ps_line := 3; ps_column := 1 |}]
       | None => []
       end |}.

Definition target_a : WorkerMeta :=
  {| meta_id := "/a/vitest.config.ts"; meta_vitestNodePath := "vitest/node";
     meta_configFile := Some "/a/vitest.config.ts"; meta_workspaceFile := None |}.

Definition target_b : WorkerMeta :=
  {| meta_id := "/b/vitest.config.ts"; meta_vitestNodePath := "vitest/node";
     meta_configFile := None; meta_workspaceFile := None |}.

Definition target_gone : WorkerMeta :=
  {| meta_id := "/gone/vitest.config.ts"; meta_vitestNodePath := "vitest/node";
     meta_configFile := Some "/gone/vitest.config.ts"; meta_workspaceFile := None |}.

Definition target_u : WorkerMeta :=
  {| meta_id := "/u/vitest.config.ts"; meta_vitestNodePath := "vitest/node";
     meta_configFile := Some "/u/vitest.config.ts"; meta_workspaceFile := None |}.

Definition target_s : WorkerMeta :=
  {| meta_id := "/s/vitest.config.ts"; meta_vitestNodePath := "vitest/node";
     meta_configFile := Some "/s/vitest.config.ts"; meta_workspaceFile := None |}.

Definition target_here : WorkerMeta :=
  {| meta_id := "vitest.config.ts"; meta_vitestNodePath := "vitest/node";
     meta_configFile := Some "vitest.config.ts"; meta_workspaceFile := None |}.

Definition example_errors : nat → ErrorObject :=
  fun ref =>
    {| eo_message := "expected 1 to be 2";
       eo_stack := if decide (ref = 0) then Some "AssertionError" else None;
       eo_stacks := None |}.

Definition loaded : State := load "/home" example_errors.

Definition init_message (loader : option string) (metas : list WorkerMeta) : Message :=
  {| msg_type := "init"; msg_loader := loader; msg_meta := metas |}.

(** The same target as [target_b], in another directory that does exist. *)
Definition target_c : WorkerMeta :=
  {| meta_id := "/c/vitest.config.ts"; meta_vitestNodePath := "vitest/node";
     meta_configFile := None; meta_workspaceFile := None |}.

(** A process in which one adapter, attached to [example_engine] running
    under name filter [pattern], is wired to the channel. *)
Definition watching (pattern : option RegExp) : State :=
  {| process_cwd := "/home"; cwd := "/home"; listeners := [L_rpc 0];
     engines :=
       [{| cfg_objects := cfg_objects example_engine; config := 0;
           projects := [core_project; browser_project];
           testNamePattern := pattern;
           getProjectByTaskId := fun _ => core_project |}];
     reporters :=
       [{| this_rpc := Some 0; this_ctx := Some 0;
           this_id := Some "/a/vitest.config.ts" |}];
     channels := [vitestById_of [{| entry_vitest := 0; entry_reporter := 0;
                                    entry_meta := target_a |}]];
     error_objects := example_errors; ticks := []; log := [] |}.

(** A process holding a fresh adapter and a fresh engine. *)
Definition constructing : State :=
  {| process_cwd := "/a"; cwd := "/home"; listeners := [];
     engines := [example_engine]; reporters := [blank]; channels := [];
     error_objects := example_errors; ticks := []; log := [] |}.

Definition example_packs : list TaskResultPack :=
  [{| pack_id := "t1";
      pack_result := Some {| tr_state := "fail";
                             tr_errors := Some [ErrObject 0; ErrNotObject (JString "oops")] |};
      pack_meta := "" |};
   {| pack_id := "t2"; pack_result := None; pack_meta := "" |};
   {| pack_id := "t3";
      pack_result := Some {| tr_state := "fail"; tr_errors := Some [ErrObject 1] |};
      pack_meta := "" |}].

(** ** Vocabulary of the statements *)

(** A run of inbound messages, one after the other. *)
Definition deliver_all (w : World) (ms : list Message) : M unit :=
  forEach ms (deliver w).

(** Adapter [this] is the object [r], and its [ctx] is the engine [e]. *)
Definition initialised (st : State) (this : nat) (r : VSCodeReporter) (e : Vitest) : Prop :=
  reporters st !! this = Some r ∧
  ∃ ctx, this_ctx r = Some ctx ∧ engines st !! ctx = Some e.

(** What [isCollecting] reads off an engine. *)
Definition collecting (e : Vitest) : bool :=
  match testNamePattern e with
  | Some pattern => bool_decide (RegExp_toString pattern = "/$a/")
  | None => false
  end.

(** A [setupFiles] field after [n] appends of [path]. *)
Definition appended (n : nat) (path : string) (old : option (list string))
    : option (list string) :=
  match n with
  | 0 => old
  | S _ => Some (default [] old ++ replicate n path)
  end.


(** ** Vocabulary of the further properties *)

(** What reading [err.stack] throws when [err] is [undefined] or [null]. *)
Definition stack_read_error (err : JsError) : JsError :=
  match err with
  | Null => TypeError_of "null" "stack"
  | _ => TypeError_of "undefined" "stack"
  end.

Definition registrations (evs : list IOEvent) : list string :=
  omap (fun ev => match ev with IO_register loader => Some loader | _ => None end) evs.

Definition dispatches (evs : list IOEvent) : list (nat * Message) :=
  omap (fun ev => match ev with IO_dispatch c m => Some (c, m) | _ => None end) evs.

(** [v.meta.id] *)
Definition entry_id (v : Entry) : string := meta_id (entry_meta v).

(** ** The Vite plugin handed to [createVitest] *)

(** [config.server.hmr.server]: a server of the user's, or the stub
    [{ on: () => {}, off: () => {} }]. *)
Inductive HmrServer :=
| UserServer (name : string)
| StubServer.

(** [config.server.hmr] *)
Inductive Hmr :=
| Hmr_undefined
| Hmr_flag (b : bool)
| Hmr_options (server : option HmrServer).

(** The part of Vite's resolved configuration the plugin touches. *)
Record ViteConfig := {
  server_hmr : Hmr;
  server_fs_allow : list string;
}.

(** [configResolved(config)] of the plugin ['vitest:vscode-extension'] *)
Definition configResolved (w : World) (config : ViteConfig) : ViteConfig :=
  {| server_hmr := Hmr_options (Some StubServer);
     server_fs_allow :=
       if bool_decide (setupFilePath w ∈ server_fs_allow config)
       then server_fs_allow config
       else server_fs_allow config ++ [setupFilePath w] |}.

(** ** An engine calling its adapter *)

(** The reporter methods an engine calls, with their arguments. *)
Inductive Call :=
| Call_onUserConsoleLog (entry : UserConsoleLog)
| Call_onTaskUpdate (packs : list TaskResultPack)
| Call_onFinished (files : option (list File)) (errors : option (list Unknown))
| Call_onCollected (files : option (list File))
| Call_onWatcherStart (files : option (list File)) (errors : option (list Unknown))
| Call_onWatcherRerun (files : list string) (trigger : option string).

Definition invoke (w : World) (call : nat * Call) : M unit :=
  match call.2 with
  | Call_onUserConsoleLog entry => Reporter.onUserConsoleLog call.1 entry
  | Call_onTaskUpdate packs => Reporter.onTaskUpdate w call.1 packs
  | Call_onFinished files errors => Reporter.onFinished call.1 files errors
  | Call_onCollected files => Reporter.onCollected call.1 files
  | Call_onWatcherStart files errors => Reporter.onWatcherStart call.1 files errors
  | Call_onWatcherRerun files trigger => Reporter.onWatcherRerun call.1 files trigger
  end.


(** One synchronous run of calls, then the end of the run. *)
Definition run_calls (w : World) (calls : list (nat * Call)) : M unit :=
  forEach calls (invoke w) ;;;
  process_ticks.




(** The posts of a log, each with the channel it went over. *)
Definition posts (evs : list IOEvent) : list (nat * RpcEvent) :=
  omap (fun ev => match ev with IO_post c e => Some (c, e) | _ => None end) evs.

(** * Proofs *)

(** ** The bootstrap, step by step *)

Lemma chdir_ok w dir st :
  chdir_fails w (process_cwd st) dir = None →
  chdir w dir st =
    Ok tt (set_process_cwd (chdir_to w (process_cwd st) dir)
             (set_log (log st ++ [IO_chdir dir]) st)).
Proof. intros H. unfold chdir, bind, emit, modify, get. cbn. by rewrite H. Qed.

Lemma chdir_throws w dir st err :
  chdir_fails w (process_cwd st) dir = Some err →
  chdir w dir st = Throw err (set_log (log st ++ [IO_chdir dir]) st).
Proof. intros H. unfold chdir, bind, emit, modify, get. cbn. by rewrite H. Qed.

Lemma get_stack_nullish err st :
  nullish err = true → get_stack err st = Throw (stack_read_error err) st.
Proof. by destruct err. Qed.

Lemma initVitest_import_fails w meta st err :
  import_fails w (meta_vitestNodePath meta) = Some err →
  initVitest w meta st =
    Throw err (set_log (log st ++ [IO_import (meta_vitestNodePath meta)]) st).
Proof.
  intros H. unfold initVitest, import, bind, emit, modify. rewrite H. reflexivity.
Qed.

Lemma initVitest_create_fails w meta st err :
  import_fails w (meta_vitestNodePath meta) = None →
  createVitest w (meta_vitestNodePath meta) (vitest_options w meta) = inl err →
  initVitest w meta st =
    Throw err
      {| process_cwd := process_cwd st; cwd := cwd st; listeners := listeners st;
         engines := engines st;
         reporters := reporters st ++ [blank];
         channels := channels st; error_objects := error_objects st; ticks := ticks st;
         log := log st ++ [IO_import (meta_vitestNodePath meta);
                           IO_createVitest (vitest_options w meta) (length (reporters st))] |}.
Proof.
  intros H1 H2. unfold initVitest, import, bind, emit, modify, Reporter.new. rewrite H1. cbn.
  rewrite H2. unfold throw, set_log; cbn. rewrite <- app_assoc. reflexivity.
Qed.

Lemma initVitest_ok w meta st e :
  import_fails w (meta_vitestNodePath meta) = None →
  createVitest w (meta_vitestNodePath meta) (vitest_options w meta) = inr e →
  initVitest w meta st =
    Ok {| entry_vitest := length (engines st); entry_reporter := length (reporters st);
          entry_meta := meta |}
      {| process_cwd := process_cwd st; cwd := cwd st; listeners := listeners st;
         engines := engines st ++ [inject_setupFile w e];
         reporters := reporters st ++
           [{| this_rpc := None; this_ctx := Some (length (engines st));
               this_id := Some (meta_id meta) |}];
         channels := channels st; error_objects := error_objects st; ticks := ticks st;
         log := log st ++ [IO_import (meta_vitestNodePath meta);
                           IO_createVitest (vitest_options w meta) (length (reporters st))] |}.
Proof.
  intros H1 H2. unfold initVitest, import, bind, emit, modify, Reporter.new. rewrite H1. cbn.
  rewrite H2. unfold new_engine, Reporter.initVitest, bind, read_reporter, write_reporter, read_engine, write_engine, modify, ret. cbn.
  rewrite list_lookup_middle by done. cbn.
  rewrite list_lookup_middle by done. cbn.
  rewrite !insert_app_r_alt by lia. rewrite !Nat.sub_diag. cbn.
  rewrite <- app_assoc. reflexivity.
Qed.

(** The loop over a first part of the payload that it gets through. *)
Lemma init_loop_app w pre : ∀ rest vitest errors st,
  enters w (process_cwd st) pre →
  Forall (caught w) pre →
  init_loop w (pre ++ rest) vitest errors st =
    init_loop w rest
      (vitest ++ new_entries w pre (length (engines st)) (length (reporters st)))
      (errors ++ startup_errors w pre)
      {| process_cwd := loop_cwd w pre (process_cwd st);
         cwd := cwd st; listeners := listeners st;
         engines := engines st ++ new_engines w pre;
         reporters := reporters st ++ new_reporters w pre (length (engines st));
         channels := channels st; error_objects := error_objects st;
         ticks := ticks st;
         log := log st ++ loop_log w pre (length (reporters st)) |}.
Proof.
  induction pre as [|meta pre IH]; intros rest vitest errors st Hdirs Hcaught.
  - cbn. rewrite !app_nil_r. by destruct st.
  - destruct Hdirs as [Hdir Hdirs]. inversion Hcaught as [|? ? Hmeta Hrest]; subst.
    cbn [app init_loop]. unfold bind at 1. rewrite (chdir_ok _ _ _ Hdir).
    unfold bind at 1, try. cbn [new_entries startup_errors new_engines new_reporters loop_log].
    unfold caught in Hmeta. unfold construct in Hmeta |- *.
    destruct (import_fails w (meta_vitestNodePath meta)) as [err|] eqn:Himp.
    + erewrite initVitest_import_fails by done.
      specialize (Hmeta err eq_refl).
      destruct err as [| |stack]; try done.
      unfold bind at 1. cbn [get_stack]. unfold ret. rewrite IH by done. cbn.
      rewrite <- !app_assoc. reflexivity.
    + destruct (createVitest w (meta_vitestNodePath meta) (vitest_options w meta))
        as [err|e] eqn:Hcreate.
      * erewrite initVitest_create_fails by done.
        specialize (Hmeta err eq_refl).
        destruct err as [| |stack]; try done.
        unfold bind at 1. cbn [get_stack]. unfold ret. rewrite IH by done. cbn.
        rewrite !length_app, <- !app_assoc. cbn. rewrite !Nat.add_1_r. reflexivity.
      * erewrite initVitest_ok by done. rewrite IH by done. cbn.
        rewrite !length_app, <- !app_assoc. cbn. rewrite !Nat.add_1_r. reflexivity.
Qed.

Lemma init_loop_ok w metas vitest errors st :
  enters w (process_cwd st) metas →
  Forall (caught w) metas →
  init_loop w metas vitest errors st =
    Ok (vitest ++ new_entries w metas (length (engines st)) (length (reporters st)),
        errors ++ startup_errors w metas)
       {| process_cwd := loop_cwd w metas (process_cwd st);
          cwd := cwd st; listeners := listeners st;
          engines := engines st ++ new_engines w metas;
          reporters := reporters st ++ new_reporters w metas (length (engines st));
          channels := channels st; error_objects := error_objects st;
          ticks := ticks st;
          log := log st ++ loop_log w metas (length (reporters st)) |}.
Proof.
  intros Hdirs Hcaught.
  rewrite <- (app_nil_r metas) at 1. by rewrite init_loop_app.
Qed.

Lemma wire_length rpc refs : ∀ rs, length (wire rpc refs rs) = length rs.
Proof.
  unfold wire. induction refs as [|ref refs IH]; intros rs; cbn; [done|].
  rewrite IH. apply length_alter.
Qed.

Lemma initRpc_ok this rpc st :
  this < length (reporters st) →
  Reporter.initRpc this rpc st =
    Ok tt (set_reporters (alter (set_rpc rpc) this (reporters st)) st).
Proof.
  intros Hlt. unfold Reporter.initRpc, bind, read_reporter, write_reporter, modify.
  destruct (lookup_lt_is_Some_2 _ _ Hlt) as [r Hr]. rewrite Hr.
  f_equal. f_equal. apply list_eq. intros i.
  destruct (decide (i = this)) as [->|Hne].
  - rewrite list_lookup_insert_eq by done. rewrite list_lookup_alter_eq, Hr. by destruct r.
  - rewrite list_lookup_insert_ne by done. by rewrite list_lookup_alter_ne.
Qed.

Lemma forEach_initRpc rpc (vitest : list Entry) :
  ∀ st,
    Forall (fun v => entry_reporter v < length (reporters st)) vitest →
    forEach vitest (fun v => Reporter.initRpc (entry_reporter v) rpc) st =
      Ok tt (set_reporters (wire rpc (entry_reporter <$> vitest) (reporters st)) st).
Proof.
  induction vitest as [|v vitest IH]; intros st Hall.
  - cbn. unfold ret. by destruct st.
  - inversion Hall as [|? ? Hv Hrest]; subst. cbn [forEach]. unfold bind.
    rewrite initRpc_ok by done. rewrite IH.
    + by cbn.
    + cbn. rewrite length_alter. done.
Qed.

Lemma new_entries_reporter_lt w metas : ∀ neng nrep,
  Forall (fun v => nrep ≤ entry_reporter v < nrep + length (new_reporters w metas neng))
    (new_entries w metas neng nrep).
Proof.
  induction metas as [|meta rest IH]; intros neng nrep; cbn; [constructor|].
  destruct (import_fails w (meta_vitestNodePath meta)); [apply IH|].
  destruct (construct w meta).
  - eapply Forall_impl; [apply IH|]. cbn. intros; lia.
  - constructor; cbn; [lia|]. eapply Forall_impl; [apply IH|]. cbn. intros; lia.
Qed.

Lemma init_other w data st : msg_type data ≠ "init" → init w data st = Ok tt st.
Proof. intros H. unfold init. by rewrite decide_False. Qed.

Lemma loader_step w data st :
  loader_ok w data →
  (match msg_loader data with
   | Some loader => if decide (loader = "") then ret tt else register w loader
   | None => ret tt
   end) st = Ok tt (set_log (log st ++ loader_log data) st).
Proof.
  unfold loader_ok, loader_log. intros Hloader. destruct (msg_loader data) as [loader|].
  - destruct (decide (loader = "")).
    + unfold ret. rewrite app_nil_r. by destruct st.
    + unfold register, bind, emit, modify. by rewrite Hloader.
  - unfold ret. rewrite app_nil_r. by destruct st.
Qed.

(** The state the body of the outer [try] ends in. *)
Lemma init_try_ok w data st :
  no_toplevel_failure w st data →
  init_try w data st =
    Ok tt
      match new_entries w (msg_meta data) (length (engines st)) (length (reporters st)) with
      | [] =>
          {| process_cwd := chdir_to w (loop_cwd w (msg_meta data) (process_cwd st)) (cwd st);
             cwd := cwd st;
             listeners := listeners st;
             engines := engines st ++ new_engines w (msg_meta data);
             reporters := reporters st ++ new_reporters w (msg_meta data) (length (engines st));
             channels := channels st; error_objects := error_objects st; ticks := ticks st;
             log := log st ++ loader_log data ++
                    loop_log w (msg_meta data) (length (reporters st)) ++
                    [IO_chdir (cwd st);
                     IO_send {| out_type := "error";
                                out_errors := JArray (startup_errors w (msg_meta data)) |}] |}
      | (_ :: _) as vitest =>
          {| process_cwd := chdir_to w (loop_cwd w (msg_meta data) (process_cwd st)) (cwd st);
             cwd := cwd st;
             listeners := listeners st ++ [L_rpc (length (channels st))];
             engines := engines st ++ new_engines w (msg_meta data);
             reporters :=
               wire (length (channels st)) (entry_reporter <$> vitest)
                 (reporters st ++ new_reporters w (msg_meta data) (length (engines st)));
             channels := channels st ++ [vitestById_of vitest];
             error_objects := error_objects st; ticks := ticks st;
             log := log st ++ loader_log data ++
                    loop_log w (msg_meta data) (length (reporters st)) ++
                    [IO_chdir (cwd st);
                     IO_createWorkerRPC (vitestById_of vitest);
                     IO_send {| out_type := "ready";
                                out_errors := JArray (startup_errors w (msg_meta data)) |}] |}
      end.
Proof.
  intros (Hloader & Hdirs & Hcaught & Hback).
  unfold init_try. unfold bind at 1. rewrite (loader_step _ _ _ Hloader).
  unfold bind at 1. rewrite init_loop_ok by done. cbn [fst snd].
  unfold bind at 1, get. unfold bind at 1.
  rewrite chdir_ok by done. cbn.
  destruct (new_entries w (msg_meta data) (length (engines st)) (length (reporters st)))
    as [|v vitest] eqn:Hentries.
  - cbn. unfold send, emit, modify, ret. cbn. rewrite <- !app_assoc. reflexivity.
  - unfold bind at 1. unfold createWorkerRPC, bind, emit, modify, get, on_message, ret.
    cbn -[forEach fromEntries fmap wire].
    rewrite forEach_initRpc.
    + cbn -[forEach fromEntries fmap wire]. unfold send, emit, modify.
      cbn -[forEach fromEntries fmap wire]. rewrite <- !app_assoc. reflexivity.
    + cbn -[forEach fromEntries fmap wire]. rewrite <- Hentries.
      eapply Forall_impl; [apply new_entries_reporter_lt|].
      cbn. intros x Hx. rewrite length_app. lia.
Qed.

(** The state the handler [init] ends in. *)
Lemma init_ok w data st :
  msg_type data = "init" →
  no_toplevel_failure w st data →
  init w data st =
    Ok tt
      match new_entries w (msg_meta data) (length (engines st)) (length (reporters st)) with
      | [] =>
          {| process_cwd := chdir_to w (loop_cwd w (msg_meta data) (process_cwd st)) (cwd st);
             cwd := cwd st;
             listeners := listeners_after_off (listeners st);
             engines := engines st ++ new_engines w (msg_meta data);
             reporters := reporters st ++ new_reporters w (msg_meta data) (length (engines st));
             channels := channels st; error_objects := error_objects st; ticks := ticks st;
             log := log st ++ loader_log data ++
                    loop_log w (msg_meta data) (length (reporters st)) ++
                    [IO_chdir (cwd st);
                     IO_send {| out_type := "error";
                                out_errors := JArray (startup_errors w (msg_meta data)) |}] |}
      | (_ :: _) as vitest =>
          {| process_cwd := chdir_to w (loop_cwd w (msg_meta data) (process_cwd st)) (cwd st);
             cwd := cwd st;
             listeners := listeners_after_off (listeners st) ++ [L_rpc (length (channels st))];
             engines := engines st ++ new_engines w (msg_meta data);
             reporters :=
               wire (length (channels st)) (entry_reporter <$> vitest)
                 (reporters st ++ new_reporters w (msg_meta data) (length (engines st)));
             channels := channels st ++ [vitestById_of vitest];
             error_objects := error_objects st; ticks := ticks st;
             log := log st ++ loader_log data ++
                    loop_log w (msg_meta data) (length (reporters st)) ++
                    [IO_chdir (cwd st);
                     IO_createWorkerRPC (vitestById_of vitest);
                     IO_send {| out_type := "ready";
                                out_errors := JArray (startup_errors w (msg_meta data)) |}] |}
      end.
Proof.
  intros Htype Hok.
  unfold init. rewrite decide_True by done.
  unfold bind at 1. unfold off_message, modify.
  unfold bind at 1. unfold try.
  fold (listeners_after_off (listeners st)).
  rewrite init_try_ok by exact Hok.
  cbn [set_listeners cwd engines reporters channels error_objects ticks log listeners].
  by destruct (new_entries _ _ _ _).
Qed.

(** Conversely, the body of the outer [try] runs to its end only when
    nothing of the above fails: [no_toplevel_failure] says no more and no
    less than that no exception reaches the outer [catch]. *)
Lemma initVitest_construct w meta st :
  match initVitest w meta st with
  | Ok _ _ => ∃ e, construct w meta = inr e
  | Throw err _ => construct w meta = inl err
  end.
Proof.
  unfold construct.
  destruct (import_fails w (meta_vitestNodePath meta)) as [err|] eqn:Himp.
  { by rewrite (initVitest_import_fails _ _ _ _ Himp). }
  destruct (createVitest w (meta_vitestNodePath meta) (vitest_options w meta))
    as [err|e] eqn:Hcreate.
  - by rewrite (initVitest_create_fails _ _ _ _ Himp Hcreate).
  - rewrite (initVitest_ok _ _ _ _ Himp Hcreate). by exists e.
Qed.

Lemma initVitest_process_cwd w meta st :
  process_cwd (final (initVitest w meta st)) = process_cwd st.
Proof.
  destruct (import_fails w (meta_vitestNodePath meta)) as [err|] eqn:Himp.
  { by rewrite (initVitest_import_fails _ _ _ _ Himp). }
  destruct (createVitest w (meta_vitestNodePath meta) (vitest_options w meta))
    as [err|e] eqn:Hcreate.
  - by rewrite (initVitest_create_fails _ _ _ _ Himp Hcreate).
  - by rewrite (initVitest_ok _ _ _ _ Himp Hcreate).
Qed.

Lemma init_loop_returns w metas : ∀ vitest errors st r st',
  init_loop w metas vitest errors st = Ok r st' →
  enters w (process_cwd st) metas ∧ Forall (caught w) metas.
Proof.
  induction metas as [|meta rest IH]; intros vitest errors st r st' Hrun; [by split|].
  cbn [init_loop] in Hrun. unfold bind at 1 in Hrun.
  destruct (chdir_fails w (process_cwd st) (dirname w (meta_id meta))) as [err|] eqn:Hdir.
  { by rewrite (chdir_throws _ _ _ _ Hdir) in Hrun. }
  rewrite (chdir_ok _ _ _ Hdir) in Hrun.
  unfold bind at 1, try in Hrun.
  match type of Hrun with context [initVitest w meta ?s] =>
    pose proof (initVitest_construct w meta s) as Hc;
    pose proof (initVitest_process_cwd w meta s) as Hcwd;
    destruct (initVitest w meta s) as [v st2|err st2]
  end; cbn in Hcwd.
  - destruct Hc as [e Hc]. apply IH in Hrun as [Hdirs Hcaught]. rewrite Hcwd in Hdirs.
    split; [by split|]. constructor; [|done]. intros err. by rewrite Hc.
  - unfold bind at 1 in Hrun. destruct err as [| |stack]; try done.
    cbn [get_stack] in Hrun. unfold ret in Hrun.
    apply IH in Hrun as [Hdirs Hcaught]. rewrite Hcwd in Hdirs.
    split; [by split|]. constructor; [|done]. intros err. rewrite Hc. by intros [= <-].
Qed.

Lemma init_try_returns w data st st1 :
  init_try w data st = Ok tt st1 → no_toplevel_failure w st data.
Proof.
  unfold init_try. unfold bind at 1. intros Hrun.
  assert (Hloader : loader_ok w data).
  { unfold loader_ok. destruct (msg_loader data) as [loader|]; [|done].
    destruct (decide (loader = "")); [done|].
    unfold register, bind, emit, modify in Hrun.
    by destruct (register_fails w loader). }
  rewrite (loader_step _ _ _ Hloader) in Hrun.
  split; [exact Hloader|].
  unfold bind at 1 in Hrun.
  destruct (init_loop w (msg_meta data) [] [] _) as [r st2|err st2] eqn:Hloop; [|done].
  pose proof (init_loop_returns _ _ _ _ _ _ _ Hloop) as [Hdirs Hcaught].
  cbn [process_cwd set_log] in Hdirs.
  split; [exact Hdirs|]. split; [exact Hcaught|].
  rewrite init_loop_ok in Hloop by done. injection Hloop as <- <-.
  unfold bind at 1, get in Hrun. unfold bind at 1 in Hrun. cbn [cwd] in Hrun.
  destruct (chdir_fails w (loop_cwd w (msg_meta data) (process_cwd st)) (cwd st))
    as [err|] eqn:Hback; [|done].
  by rewrite (chdir_throws _ _ _ err) in Hrun by exact Hback.
Qed.

Lemma no_toplevel_failure_iff w data st :
  no_toplevel_failure w st data ↔ ∃ st1, init_try w data st = Ok tt st1.
Proof.
  split.
  - intros Hok. eexists. by apply init_try_ok.
  - intros [st1 Hrun]. by eapply init_try_returns.
Qed.

(** ** Reading off the results of the loop *)

Lemma control_messages_app evs1 evs2 :
  control_messages (evs1 ++ evs2) = control_messages evs1 ++ control_messages evs2.
Proof.
  induction evs1 as [|ev evs1 IH]; [done|].
  destruct ev; cbn; by rewrite ?IH.
Qed.

Lemma rpc_events_app evs1 evs2 :
  rpc_events (evs1 ++ evs2) = rpc_events evs1 ++ rpc_events evs2.
Proof.
  induction evs1 as [|ev evs1 IH]; [done|].
  destruct ev; cbn; by rewrite ?IH.
Qed.

Lemma loop_log_control w metas : ∀ nrep, control_messages (loop_log w metas nrep) = [].
Proof.
  induction metas as [|meta rest IH]; intros nrep; cbn; [done|].
  destruct (import_fails w (meta_vitestNodePath meta)); cbn; apply IH.
Qed.

Lemma loop_log_channels w metas : ∀ nrep, channels_made (loop_log w metas nrep) = [].
Proof.
  induction metas as [|meta rest IH]; intros nrep; cbn; [done|].
  destruct (import_fails w (meta_vitestNodePath meta)); cbn; apply IH.
Qed.

Lemma loop_log_chdirs w metas : ∀ nrep,
  chdirs (loop_log w metas nrep) = (fun meta => dirname w (meta_id meta)) <$> metas.
Proof.
  induction metas as [|meta rest IH]; intros nrep; cbn; [done|].
  destruct (import_fails w (meta_vitestNodePath meta)); cbn; f_equal; apply IH.
Qed.

Lemma loop_log_imports w metas : ∀ nrep,
  imports (loop_log w metas nrep) = meta_vitestNodePath <$> metas.
Proof.
  induction metas as [|meta rest IH]; intros nrep; cbn; [done|].
  destruct (import_fails w (meta_vitestNodePath meta)); cbn; f_equal; apply IH.
Qed.

Lemma loader_log_control data : control_messages (loader_log data) = [].
Proof. unfold loader_log. destruct (msg_loader data); [case_decide|]; done. Qed.

Lemma loader_log_chdirs data : chdirs (loader_log data) = [].
Proof. unfold loader_log. destruct (msg_loader data); [case_decide|]; done. Qed.

Lemma loader_log_imports data : imports (loader_log data) = [].
Proof. unfold loader_log. destruct (msg_loader data); [case_decide|]; done. Qed.

Lemma loader_log_channels data : channels_made (loader_log data) = [].
Proof. unfold loader_log. destruct (msg_loader data); [case_decide|]; done. Qed.

Lemma failed_inl w meta err : construct w meta = inl err → failed w meta = true.
Proof. unfold failed. by intros ->. Qed.

Lemma failed_inr w meta e : construct w meta = inr e → failed w meta = false.
Proof. unfold failed. by intros ->. Qed.

Lemma startup_errors_failed w metas :
  Forall (caught w) metas →
  Forall2
    (fun meta entry =>
       ∃ stack,
         construct w meta = inl (Thrown stack) ∧
         entry = JArray [JString (meta_id meta);
                         match stack with
                         | Some s => JString s
                         | None => JUndefined
                         end])
    (filter (fun meta => failed w meta) metas)
    (startup_errors w metas).
Proof.
  induction 1 as [|meta rest Hmeta _ IH]; cbn [startup_errors]; [constructor|].
  unfold caught in Hmeta.
  destruct (construct w meta) as [err|e] eqn:Hc.
  - rewrite filter_cons_True by (rewrite (failed_inl _ _ _ Hc); done).
    specialize (Hmeta err eq_refl). destruct err as [| |stack]; try done.
    constructor; [|done]. by exists stack.
  - rewrite filter_cons_False by (rewrite (failed_inr _ _ _ Hc); cbn; tauto). done.
Qed.

Lemma startup_errors_length w metas :
  Forall (caught w) metas →
  length (startup_errors w metas) = length (filter (fun meta => failed w meta) metas).
Proof. intros Hcaught. symmetry. by eapply Forall2_length, startup_errors_failed. Qed.

Lemma constructed_inl w meta err : construct w meta = inl err → constructed w meta = false.
Proof. unfold constructed, failed. by intros ->. Qed.

Lemma constructed_inr w meta e : construct w meta = inr e → constructed w meta = true.
Proof. unfold constructed, failed. by intros ->. Qed.

Lemma construct_import_fails w meta err :
  import_fails w (meta_vitestNodePath meta) = Some err → construct w meta = inl err.
Proof. unfold construct. by intros ->. Qed.

Lemma failed_constructed_length w metas :
  length (filter (fun meta => failed w meta) metas) +
  length (filter (fun meta => constructed w meta) metas) = length metas.
Proof.
  induction metas as [|meta rest IH]; [done|].
  destruct (construct w meta) as [err|e] eqn:Hc.
  - rewrite filter_cons_True by (by rewrite (failed_inl _ _ _ Hc)).
    rewrite filter_cons_False by (rewrite (constructed_inl _ _ _ Hc); cbn; tauto).
    cbn. lia.
  - rewrite filter_cons_False by (rewrite (failed_inr _ _ _ Hc); cbn; tauto).
    rewrite filter_cons_True by (by rewrite (constructed_inr _ _ _ Hc)).
    cbn. lia.
Qed.

Lemma new_entries_meta w metas : ∀ neng nrep,
  entry_meta <$> new_entries w metas neng nrep =
  filter (fun meta => constructed w meta) metas.
Proof.
  induction metas as [|meta rest IH]; intros neng nrep; cbn [new_entries]; [done|].
  destruct (import_fails w (meta_vitestNodePath meta)) as [err|] eqn:Himp.
  - rewrite filter_cons_False; [apply IH|].
    rewrite (constructed_inl _ _ _ (construct_import_fails _ _ _ Himp)). cbn; tauto.
  - destruct (construct w meta) as [err|e] eqn:Hc.
    + rewrite filter_cons_False; [apply IH|].
      rewrite (constructed_inl _ _ _ Hc). cbn; tauto.
    + rewrite filter_cons_True by (by rewrite (constructed_inr _ _ _ Hc)).
      cbn. f_equal. apply IH.
Qed.

Lemma new_entries_vitest w metas : ∀ neng nrep,
  entry_vitest <$> new_entries w metas neng nrep =
  seq neng (length (new_entries w metas neng nrep)).
Proof.
  induction metas as [|meta rest IH]; intros neng nrep; cbn [new_entries]; [done|].
  destruct (import_fails w (meta_vitestNodePath meta)); [apply IH|].
  destruct (construct w meta); [apply IH|]. cbn. f_equal. apply IH.
Qed.

Lemma new_engines_length w metas : ∀ neng nrep,
  length (new_engines w metas) = length (new_entries w metas neng nrep).
Proof.
  induction metas as [|meta rest IH]; intros neng nrep; cbn; [done|].
  destruct (import_fails w (meta_vitestNodePath meta)) as [err|] eqn:Himp.
  - rewrite (construct_import_fails _ _ _ Himp). apply IH.
  - destruct (construct w meta); cbn; [apply IH|]. f_equal. apply IH.
Qed.

Lemma new_entries_length w metas neng nrep :
  length (new_entries w metas neng nrep) =
  length (filter (fun meta => constructed w meta) metas).
Proof. by rewrite <- (new_entries_meta w metas neng nrep), length_fmap. Qed.

Lemma new_entries_reporters w metas : ∀ neng rs,
  Forall
    (fun v =>
       (rs ++ new_reporters w metas neng) !! entry_reporter v =
       Some {| this_rpc := None; this_ctx := Some (entry_vitest v);
               this_id := Some (meta_id (entry_meta v)) |})
    (new_entries w metas neng (length rs)).
Proof.
  induction metas as [|meta rest IH]; intros neng rs; cbn; [constructor|].
  destruct (import_fails w (meta_vitestNodePath meta)); [apply IH|].
  destruct (construct w meta).
  - specialize (IH neng (rs ++ [blank])).
    rewrite length_app, <- app_assoc in IH. cbn in IH. by rewrite Nat.add_1_r in IH.
  - constructor.
    + cbn. by rewrite list_lookup_middle.
    + match goal with |- context [?r :: new_reporters _ _ _] =>
        specialize (IH (S neng) (rs ++ [r])) end.
      rewrite length_app, <- app_assoc in IH. cbn in IH. by rewrite Nat.add_1_r in IH.
Qed.

Lemma wire_lookup rpc (refs : list nat) : ∀ (rs : list VSCodeReporter) (ref : nat),
  ref ∈ refs → wire rpc refs rs !! ref = set_rpc rpc <$> rs !! ref.
Proof.
  unfold wire.
  assert (Hout : ∀ (refs : list nat) (rs : list VSCodeReporter) (ref : nat),
    ref ∉ refs →
    foldl (fun rs' r => alter (set_rpc rpc) r rs') rs refs !! ref = rs !! ref).
  { clear. induction refs as [|a refs IH]; intros rs ref Hnotin; cbn; [done|].
    rewrite IH by set_solver. apply list_lookup_alter_ne. set_solver. }
  induction refs as [|a refs IH]; intros rs ref Hin; [set_solver|]. cbn.
  destruct (decide (ref ∈ refs)) as [Hin'|Hnotin].
  - rewrite IH by done. destruct (decide (a = ref)) as [->|Hne].
    + rewrite list_lookup_alter_eq. by destruct (rs !! ref).
    + by rewrite list_lookup_alter_ne.
  - destruct (decide (a = ref)) as [->|Hne].
    + rewrite Hout by done. apply list_lookup_alter_eq.
    + apply elem_of_cons in Hin as [Heq|Hin]; [congruence|contradiction].
Qed.

(** ** More on the results of the loop *)

Lemma new_reporters_unwired w metas : ∀ neng,
  Forall (fun r => this_rpc r = None) (new_reporters w metas neng).
Proof.
  induction metas as [|meta rest IH]; intros neng; cbn; [constructor|].
  destruct (import_fails w (meta_vitestNodePath meta)); [apply IH|].
  destruct (construct w meta); constructor; done || apply IH.
Qed.

Lemma chdirs_app evs1 evs2 : chdirs (evs1 ++ evs2) = chdirs evs1 ++ chdirs evs2.
Proof. apply omap_app. Qed.

Lemma imports_app evs1 evs2 : imports (evs1 ++ evs2) = imports evs1 ++ imports evs2.
Proof. apply omap_app. Qed.

Lemma channels_made_app evs1 evs2 :
  channels_made (evs1 ++ evs2) = channels_made evs1 ++ channels_made evs2.
Proof. apply omap_app. Qed.

Lemma all_failed_entries w metas :
  Forall (fun meta => failed w meta) metas →
  ∀ neng nrep, new_entries w metas neng nrep = [].
Proof.
  induction 1 as [|meta rest Hf _ IH]; intros neng nrep; cbn; [done|].
  destruct (import_fails w (meta_vitestNodePath meta)); [apply IH|].
  unfold failed in Hf. destruct (construct w meta); [apply IH|]. by destruct Hf.
Qed.

Lemma all_failed_engines w metas :
  Forall (fun meta => failed w meta) metas → new_engines w metas = [].
Proof.
  induction 1 as [|meta rest Hf _ IH]; cbn; [done|].
  unfold failed in Hf. destruct (construct w meta); [apply IH|]. by destruct Hf.
Qed.

Lemma all_failed_errors w metas :
  Forall (caught w) metas →
  Forall (fun meta => failed w meta) metas →
  length (startup_errors w metas) = length metas.
Proof.
  intros Hcaught Hall. rewrite startup_errors_length by done.
  f_equal. clear Hcaught. induction Hall as [|meta rest Hf _ IH]; [done|].
  rewrite filter_cons_True by done. by f_equal.
Qed.

Lemma all_failed_filter w metas :
  Forall (fun meta => failed w meta) metas →
  filter (fun meta => failed w meta) metas = metas.
Proof.
  induction 1 as [|meta rest Hf _ IH]; [done|].
  rewrite filter_cons_True by done. by f_equal.
Qed.

Lemma new_engines_built w metas :
  Forall2
    (fun meta e' => ∃ e, construct w meta = inr e ∧ e' = inject_setupFile w e)
    (filter (fun meta => constructed w meta) metas)
    (new_engines w metas).
Proof.
  induction metas as [|meta rest IH]; cbn [new_engines]; [constructor|].
  destruct (construct w meta) as [err|e] eqn:Hc.
  - rewrite filter_cons_False by (rewrite (constructed_inl _ _ _ Hc); cbn; tauto). done.
  - rewrite filter_cons_True by (by rewrite (constructed_inr _ _ _ Hc)).
    constructor; [|done]. by exists e.
Qed.

Lemma deliver_no_listeners w m st : listeners st = [] → deliver w m st = Ok tt st.
Proof. intros H. unfold deliver, bind, get. by rewrite H. Qed.

Lemma deliver_all_no_listeners w ms : ∀ st,
  listeners st = [] → deliver_all w ms st = Ok tt st.
Proof.
  unfold deliver_all. induction ms as [|m ms IH]; intros st H; cbn; [done|].
  unfold bind. rewrite deliver_no_listeners by done. by apply IH.
Qed.

Lemma init_log_control_ready w data st vitest :
  control_messages
    (loader_log data ++ loop_log w (msg_meta data) (length (reporters st)) ++
     [IO_chdir (cwd st); IO_createWorkerRPC vitest;
      IO_send {| out_type := "ready";
                 out_errors := JArray (startup_errors w (msg_meta data)) |}]) =
  [{| out_type := "ready"; out_errors := JArray (startup_errors w (msg_meta data)) |}].
Proof.
  by rewrite !control_messages_app, loader_log_control, loop_log_control.
Qed.

Lemma error_ok stack st :
  error (Thrown stack) st =
    Ok tt (set_log
             (log st ++
              [IO_send {| out_type := "error";
                          out_errors := JArray [JString ""; JString (String_of stack)] |}])
             st).
Proof. reflexivity. Qed.

Lemma error_nullish err st :
  nullish err = true → error err st = Throw (stack_read_error err) st.
Proof. by destruct err. Qed.

(** [init], once it has unregistered itself. *)
Lemma init_off w data st :
  msg_type data = "init" →
  init w data st =
    match init_try w data (set_listeners (listeners_after_off (listeners st)) st) with
    | Ok _ st1 => Ok tt st1
    | Throw err st1 => error err st1
    end.
Proof.
  intros Htype. unfold init. rewrite decide_True by done.
  unfold bind at 1. unfold off_message, modify. unfold bind, try.
  fold (listeners_after_off (listeners st)).
  by destruct (init_try w data _) as [[] st1|err st1].
Qed.

(** Whatever reaches the outer [catch] with a [stack] to read is reported
    by one flat [error] message. *)
Lemma init_catches w data st stack st1 :
  msg_type data = "init" →
  init_try w data (set_listeners (listeners_after_off (listeners st)) st)
    = Throw (Thrown stack) st1 →
  init w data st =
    Ok tt (set_log
             (log st1 ++
              [IO_send {| out_type := "error";
                          out_errors := JArray [JString ""; JString (String_of stack)] |}])
             st1).
Proof. intros Htype Htry. by rewrite init_off, Htry. Qed.

(** ** The adapter, callback by callback *)

Lemma this_engine_ok st this r e what :
  initialised st this r e → this_engine this what st = Ok e st.
Proof.
  intros (Hr & ctx & Hctx & He).
  unfold this_engine, bind, read_reporter, read_engine. by rewrite Hr, Hctx, He.
Qed.

Lemma isCollecting_ok st this r e :
  initialised st this r e → Reporter.isCollecting this st = Ok (collecting e) st.
Proof.
  intros Hinit. unfold Reporter.isCollecting, bind.
  by rewrite (this_engine_ok _ _ _ _ _ Hinit).
Qed.

Lemma append_String c s t : String c s +:+ t = String c (s +:+ t).
Proof. reflexivity. Qed.

Lemma append_empty t : "" +:+ t = t.
Proof. reflexivity. Qed.

Lemma sentinel_pattern pattern :
  RegExp_toString pattern = "/$a/" ↔ pattern = {| source := "$a"; flags := "" |}.
Proof.
  split; [|by intros ->].
  destruct pattern as [s f]. unfold RegExp_toString. cbn [source flags].
  rewrite append_String, append_empty. intros [= H].
  destruct s as [|c1 s]; rewrite ?append_String, ?append_empty in H; [discriminate|].
  injection H as -> H.
  destruct s as [|c2 s]; rewrite ?append_String, ?append_empty in H; [discriminate|].
  injection H as -> H.
  destruct s as [|c3 s]; rewrite ?append_String, ?append_empty in H.
  - by injection H as ->.
  - injection H as -> H. destruct s; discriminate.
Qed.

Lemma rpc_post_ok st this r channel method ev :
  reporters st !! this = Some r → this_rpc r = Some channel →
  Reporter.rpc_post this method ev st =
    Ok tt (set_log (log st ++ [IO_post channel (ev (this_id r))]) st).
Proof.
  intros Hr Hrpc. unfold Reporter.rpc_post, bind, read_reporter. by rewrite Hr, Hrpc.
Qed.

Lemma rpc_defined_ok st this r channel method :
  reporters st !! this = Some r → this_rpc r = Some channel →
  Reporter.rpc_defined this method st = Ok tt st.
Proof.
  intros Hr Hrpc. unfold Reporter.rpc_defined, bind, read_reporter. by rewrite Hr, Hrpc.
Qed.

Lemma onCollected_ok st this r e channel files :
  initialised st this r e → this_rpc r = Some channel →
  Reporter.onCollected this files st =
    Ok tt (set_log (log st ++
                    [IO_post channel (rpc_onCollected (this_id r) files (collecting e))]) st).
Proof.
  intros Hinit Hrpc. pose proof Hinit as [Hr _]. unfold Reporter.onCollected, bind.
  rewrite (rpc_defined_ok _ _ _ _ _ Hr Hrpc), (isCollecting_ok _ _ _ _ Hinit).
  by rewrite (rpc_post_ok _ _ _ _ _ _ Hr Hrpc).
Qed.

Lemma onWatcherStart_ok st this r e channel files errors :
  initialised st this r e → this_rpc r = Some channel →
  Reporter.onWatcherStart this files errors st =
    Ok tt (set_log (log st ++
             [IO_post channel (rpc_onWatcherStart (this_id r) files errors (collecting e))]) st).
Proof.
  intros Hinit Hrpc. pose proof Hinit as [Hr _]. unfold Reporter.onWatcherStart, bind.
  rewrite (rpc_defined_ok _ _ _ _ _ Hr Hrpc), (isCollecting_ok _ _ _ _ Hinit).
  by rewrite (rpc_post_ok _ _ _ _ _ _ Hr Hrpc).
Qed.

Lemma onWatcherRerun_ok st this r e channel files trigger :
  initialised st this r e → this_rpc r = Some channel →
  Reporter.onWatcherRerun this files trigger st =
    Ok tt (set_log (log st ++
             [IO_post channel (rpc_onWatcherRerun (this_id r) files trigger (collecting e))]) st).
Proof.
  intros Hinit Hrpc. pose proof Hinit as [Hr _]. unfold Reporter.onWatcherRerun, bind.
  rewrite (rpc_defined_ok _ _ _ _ _ Hr Hrpc), (isCollecting_ok _ _ _ _ Hinit).
  by rewrite (rpc_post_ok _ _ _ _ _ _ Hr Hrpc).
Qed.

Lemma onFinished_ok st this r e files errors :
  initialised st this r e →
  Reporter.onFinished this files errors st =
    Ok tt (set_ticks (ticks st ++
             [{| tick_this := this; tick_files := files; tick_errors := errors;
                 tick_collecting := collecting e |}]) st).
Proof.
  intros Hinit. unfold Reporter.onFinished, bind.
  by rewrite (isCollecting_ok _ _ _ _ Hinit).
Qed.

Lemma run_tick_ok st t r channel :
  reporters st !! tick_this t = Some r → this_rpc r = Some channel →
  run_tick t st =
    Ok tt (set_log (log st ++
             [IO_post channel
                (rpc_onFinished (this_id r) (tick_files t) (tick_errors t) (tick_collecting t))])
             st).
Proof. intros Hr Hrpc. unfold run_tick. by rewrite (rpc_post_ok _ _ _ _ _ _ Hr Hrpc). Qed.

(** ** Setup-file injection *)

Lemma inject_setupFile_fold w e :
  inject_setupFile w e =
  foldl (fun e' cfg => append_setupFile w cfg e') e (config_refs e).
Proof. unfold inject_setupFile, config_refs. cbn. by rewrite foldl_fmap. Qed.

Lemma occurrences_cons cfg a refs :
  occurrences cfg (a :: refs) =
  (if decide (a = cfg) then 1 else 0) + occurrences cfg refs.
Proof.
  unfold occurrences. case_decide.
  - by rewrite filter_cons_True.
  - by rewrite filter_cons_False.
Qed.

Lemma append_fold_setupFiles w (refs : list nat) : ∀ e cfg,
  setupFiles (cfg_objects (foldl (fun e' c => append_setupFile w c e') e refs) cfg) =
  appended (occurrences cfg refs) (setupFilePath w) (setupFiles (cfg_objects e cfg)).
Proof.
  induction refs as [|a refs IH]; intros e cfg; [done|].
  cbn [foldl]. rewrite IH, occurrences_cons. cbn [append_setupFile cfg_objects].
  destruct (decide (cfg = a)) as [->|Hne].
  - rewrite decide_True by done. cbn [setupFiles].
    destruct (occurrences a refs) as [|n]; cbn; [done|].
    by rewrite <- app_assoc.
  - by rewrite decide_False by done.
Qed.

Lemma append_fold_rest w (refs : list nat) : ∀ e,
  let e' := foldl (fun e' c => append_setupFile w c e') e refs in
  config e' = config e ∧ projects e' = projects e ∧
  testNamePattern e' = testNamePattern e ∧
  getProjectByTaskId e' = getProjectByTaskId e.
Proof.
  induction refs as [|a refs IH]; intros e; [done|].
  cbn. destruct (IH (append_setupFile w a e)) as (-> & -> & -> & ->). done.
Qed.

Lemma occurrences_pos cfg refs : cfg ∈ refs → 0 < occurrences cfg refs.
Proof.
  intros Hin. unfold occurrences.
  assert (cfg ∈ filter (fun ref => ref = cfg) refs) as H by (by apply list_elem_of_filter).
  destruct (filter _ refs); [set_solver|cbn; lia].
Qed.

Lemma occurrences_zero cfg refs : cfg ∉ refs → occurrences cfg refs = 0.
Proof.
  intros Hnotin. unfold occurrences.
  induction refs as [|a refs IH]; [done|].
  rewrite filter_cons_False by set_solver. apply IH. set_solver.
Qed.

Lemma occurrences_NoDup cfg refs : NoDup refs → cfg ∈ refs → occurrences cfg refs = 1.
Proof.
  induction 1 as [|a refs Hnotin Hnd IH]; intros Hin; [set_solver|].
  rewrite occurrences_cons. case_decide as Heq.
  - subst a. by rewrite occurrences_zero.
  - rewrite IH; [done|set_solver].
Qed.

(** ** Stack resolution *)












(** * Properties of the specification *)

(** ** Bootstrap *)

(** C1 (partial success).  Target A is built and the construction of
    target U rejects with [undefined]: of N = 2 targets k = 1 fails engine
    construction, every directory can be entered and no loader is asked
    for.  The handler of the inner [catch] throws when it reads
    [err.stack], so that the one message the worker sends is not a
    [ready] with one entry but the [error] of the outer [catch], although
    the engine of A is live; no channel is made for it. *)
Theorem init_partial_success_undefined :
  let data := init_message None [target_a; target_u] in
  construct example_world target_a = inr example_engine ∧
  construct example_world target_u = inl Undefined ∧
  length (filter (fun meta => failed example_world meta) (msg_meta data)) = 1 ∧
  enters example_world (process_cwd loaded) (msg_meta data) ∧
  ∃ st',
    deliver example_world data loaded = Ok tt st' ∧
    control_messages (log st') =
      [{| out_type := "error";
          out_errors :=
            JArray [JString "";
                    JString "TypeError: Cannot read properties of undefined (reading 'stack')"] |}] ∧
    length (engines st') = 1 ∧
    channels st' = [].
Proof.
  cbn zeta. split; [reflexivity|]. split; [reflexivity|]. split; [reflexivity|].
  split; [by repeat split|]. eexists. split; [vm_compute; reflexivity|]. by vm_compute.
Qed.

(** C2 (total failure).  All of N = 3 targets fail engine construction,
    the first two by throwing an [Error], the last by rejecting with
    [undefined].  The handler of the inner [catch] throws when it reads
    the [stack] of [undefined], and the [error] message that is sent is
    the one of the outer [catch]: its list is the two strings [''] and the
    stack of the [TypeError], not three entries, and the entries recorded
    for the first two targets are lost. *)
Theorem init_total_failure_undefined :
  let data := init_message None [target_b; target_c; target_u] in
  Forall (fun meta => failed example_world meta) (msg_meta data) ∧
  construct example_world target_u = inl Undefined ∧
  enters example_world (process_cwd loaded) (msg_meta data) ∧
  ∃ st',
    deliver example_world data loaded = Ok tt st' ∧
    control_messages (log st') =
      [{| out_type := "error";
          out_errors :=
            JArray [JString "";
                    JString "TypeError: Cannot read properties of undefined (reading 'stack')"] |}] ∧
    engines st' = [] ∧
    channels st' = [].
Proof.
  cbn zeta. split; [repeat constructor|]. split; [reflexivity|].
  split; [by repeat split|]. eexists. split; [vm_compute; reflexivity|]. by vm_compute.
Qed.

(** C3 (failure isolation).  The construction of B throws an [Error], that
    of U rejects with [undefined], and C comes after them.  B is recorded
    and U is attempted; but reading the [stack] of [undefined] throws
    inside the inner [catch], so that no entry is recorded for U and C is
    never attempted: no directory change and no import is made for it.
    What is sent is the [error] of the outer [catch]. *)
Theorem init_failure_isolated_undefined :
  let data := init_message None [target_b; target_u; target_c] in
  construct example_world target_u = inl Undefined ∧
  enters example_world (process_cwd loaded) (msg_meta data) ∧
  ∃ st',
    deliver example_world data loaded = Ok tt st' ∧
    chdirs (log st') = ["/b"; "/u"] ∧
    imports (log st') = ["vitest/node"; "vitest/node"] ∧
    control_messages (log st') =
      [{| out_type := "error";
          out_errors :=
            JArray [JString "";
                    JString "TypeError: Cannot read properties of undefined (reading 'stack')"] |}].
Proof.
  cbn zeta. split; [reflexivity|]. split; [by repeat split|].
  eexists. split; [vm_compute; reflexivity|]. by vm_compute.
Qed.

(** C4 (working directory).  The module is loaded in [/home]; the
    directory of the first target can be entered and its engine is built,
    the directory of the second is gone, so that [process.chdir] throws
    for it.  The exception leaves the loop for the outer [catch], which
    sends the [error] message, and [process.chdir(cwd)] is never reached:
    [init] processing ends in a terminal [error] with the process in the
    directory of the first target, not in the one it started in. *)
Theorem init_leaves_directory :
  let data := init_message None [target_a; target_gone] in
  ∃ st',
    deliver example_world data loaded = Ok tt st' ∧
    process_cwd loaded = "/home" ∧
    process_cwd st' = "/a" ∧
    chdirs (log st') = ["/a"; "/gone"] ∧
    control_messages (log st') =
      [{| out_type := "error";
          out_errors :=
            JArray [JString "";
                    JString "Error: ENOENT: no such file or directory, chdir '/gone'"] |}] ∧
    length (engines st') = 1 ∧
    channels st' = [] ∧
    listeners st' = [].
Proof. eexists. split; [vm_compute; reflexivity|]. by vm_compute. Qed.

(** The module constant [cwd] is the directory of the process from the
    moment the module is loaded until [init] runs: messages of other
    types leave the state alone. *)
Lemma deliver_other w m dir heap :
  msg_type m ≠ "init" → deliver w m (load dir heap) = Ok tt (load dir heap).
Proof.
  intros Hne. unfold deliver, bind, get. cbn. unfold bind.
  by rewrite init_other.
Qed.

(** C9 (top-level failure).  The loader ["bad-loader"] cannot be
    registered, so [register] throws before any target is looked at.  The
    handler returns normally and the one thing sent is an [error] message;
    its [errors] field is the flat array [['', String(err.stack)]] of two
    strings.  It holds no entry of the shape [[id, stack]] that the
    start-up error list has everywhere else: the field is not the
    one-entry list [[['', stack]]]. *)
Theorem init_loader_failure_message :
  ∃ st',
    deliver example_world (init_message (Some "bad-loader") [target_a; target_b]) loaded
      = Ok tt st' ∧
    log st' =
      [IO_register "bad-loader";
       IO_send {| out_type := "error";
                  out_errors :=
                    JArray [JString ""; JString "Error: Cannot find package 'bad-loader'"] |}] ∧
    listeners st' = [] ∧
    ∀ m, m ∈ control_messages (log st') →
         out_errors m ≠
         JArray [JArray [JString ""; JString "Error: Cannot find package 'bad-loader'"]].
Proof.
  eexists. split; [reflexivity|]. split; [reflexivity|]. split; [reflexivity|].
  intros m Hin. cbn in Hin. apply list_elem_of_singleton in Hin as ->. cbn. discriminate.
Qed.

(** ** Reporter adapter *)

(** C6 (collecting flag).  On an initialised adapter [isCollecting]
    returns, without changing anything, a flag that is true exactly when
    the engine has a name-filter pattern set whose string form equals
    ["/$a/"]; that is the case for the pattern with source ["$a"] and no
    flags and for no other.  Without a pattern, or with any other one, the
    flag is false. *)
Theorem isCollecting_exact st this r e :
  initialised st this r e →
  ∃ b, Reporter.isCollecting this st = Ok b st ∧
       (b = true ↔ ∃ pattern, testNamePattern e = Some pattern ∧
                              RegExp_toString pattern = "/$a/") ∧
       (b = true ↔ testNamePattern e = Some {| source := "$a"; flags := "" |}).
Proof.
  intros Hinit. exists (collecting e). split; [by eapply isCollecting_ok|].
  unfold collecting. destruct (testNamePattern e) as [pattern|].
  - rewrite bool_decide_eq_true. split.
    + split; [by exists pattern|]. by intros (p & [= <-] & Hp).
    + rewrite sentinel_pattern. split; [by intros ->|by intros [= ->]].
  - split; split; try done. by intros (p & [=] & _).
Qed.

Lemma watching_initialised pattern :
  initialised (watching pattern) 0
    {| this_rpc := Some 0; this_ctx := Some 0; this_id := Some "/a/vitest.config.ts" |}
    {| cfg_objects := cfg_objects example_engine; config := 0;
       projects := [core_project; browser_project];
       testNamePattern := pattern;
       getProjectByTaskId := fun _ => core_project |}.
Proof. split; [reflexivity|]. exists 0. split; reflexivity. Defined.

Lemma isCollecting_exact_witness :
  ∃ b, Reporter.isCollecting 0 (watching (Some {| source := "$a"; flags := "" |}))
       = Ok b (watching (Some {| source := "$a"; flags := "" |})).
Proof.
  destruct (isCollecting_exact _ _ _ _
              (watching_initialised (Some {| source := "$a"; flags := "" |})))
    as (b & Hrun & _).
  exists b. exact Hrun.
Defined.

(** Equality of strings, not a match: a pattern that contains the
    sentinel, or the sentinel with a flag, does not count. *)
Example isCollecting_sentinel :
  Reporter.isCollecting 0 (watching (Some {| source := "$a"; flags := "" |}))
  = Ok true (watching (Some {| source := "$a"; flags := "" |})).
Proof. reflexivity. Qed.

Example isCollecting_flagged :
  Reporter.isCollecting 0 (watching (Some {| source := "$a"; flags := "i" |}))
  = Ok false (watching (Some {| source := "$a"; flags := "i" |})).
Proof. reflexivity. Qed.

Example isCollecting_longer :
  Reporter.isCollecting 0 (watching (Some {| source := "adds $a"; flags := "" |}))
  = Ok false (watching (Some {| source := "adds $a"; flags := "" |})).
Proof. reflexivity. Qed.

(** C5 (deferred finish).  On an initialised and wired adapter, call
    [onFinished(files, errors)] and then [onCollected(files2)] in one
    synchronous run.  When the run is over the [collected] event has been
    posted and the [finished] event has not: it sits in the [nextTick]
    queue, already holding the flag [isCollecting] returned when
    [onFinished] was called.  Whenever the tick runs it posts [finished]
    with that flag, whatever has become of the engines in the meantime; so
    with an empty queue to start from, the host sees [collected] first and
    [finished] second. *)
Theorem finished_after_collected st this r e channel files errors files2 :
  initialised st this r e →
  this_rpc r = Some channel →
  ∃ st1 t,
    (Reporter.onFinished this files errors ;;; Reporter.onCollected this files2) st
      = Ok tt st1 ∧
    log st1 = log st ++ [IO_post channel (rpc_onCollected (this_id r) files2 (collecting e))] ∧
    ticks st1 = ticks st ++ [t] ∧
    Reporter.isCollecting this st = Ok (tick_collecting t) st ∧
    (∀ st2, reporters st2 !! this = Some r →
       run_tick t st2 =
         Ok tt (set_log (log st2 ++
                  [IO_post channel
                     (rpc_onFinished (this_id r) files errors (tick_collecting t))]) st2)) ∧
    (ticks st = [] →
     ∀ engines', ∃ st3,
       process_ticks (set_engines engines' st1) = Ok tt st3 ∧
       ticks st3 = [] ∧
       rpc_events (log st3) =
         rpc_events (log st) ++
         [rpc_onCollected (this_id r) files2 (collecting e);
          rpc_onFinished (this_id r) files errors (tick_collecting t)]).
Proof.
  intros Hinit Hrpc. pose proof Hinit as [Hr _].
  eexists _, _. unfold bind at 1. rewrite (onFinished_ok _ _ _ _ _ _ Hinit).
  assert (Hinit' : ∀ q, initialised (set_ticks q st) this r e) by (intros q; exact Hinit).
  rewrite (onCollected_ok _ _ _ _ _ _ (Hinit' _) Hrpc).
  split; [reflexivity|]. cbn [log ticks set_log set_ticks].
  split; [reflexivity|]. split; [reflexivity|].
  split; [exact (isCollecting_ok _ _ _ _ Hinit)|].
  split.
  { intros st2 Hr2.
    exact (run_tick_ok st2
             {| tick_this := this; tick_files := files; tick_errors := errors;
                tick_collecting := collecting e |} r channel Hr2 Hrpc). }
  intros Hq engines'. rewrite Hq. unfold process_ticks, bind, get. cbn.
  unfold bind, modify. cbn.
  erewrite run_tick_ok by (cbn; done). unfold ret.
  eexists. split; [reflexivity|]. cbn. split; [done|].
  rewrite !rpc_events_app. cbn. by rewrite <- app_assoc.
Qed.

Lemma finished_after_collected_witness :
  ∃ st1,
    (Reporter.onFinished 0 (Some ["/a/x.test.ts"]) (Some []) ;;;
     Reporter.onCollected 0 (Some ["/a/y.test.ts"]))
      (watching (Some {| source := "$a"; flags := "" |})) = Ok tt st1.
Proof.
  destruct (finished_after_collected _ _ _ _ 0 (Some ["/a/x.test.ts"]) (Some [])
              (Some ["/a/y.test.ts"])
              (watching_initialised (Some {| source := "$a"; flags := "" |})) eq_refl)
    as (st1 & _ & Hrun & _).
  exists st1. exact Hrun.
Defined.

(** The engine leaves its dry run between the call and the tick: the
    [finished] event still says [collecting = true]. *)
Example finished_keeps_flag :
  let st := watching (Some {| source := "$a"; flags := "" |}) in
  let st1 := final ((Reporter.onFinished 0 (Some ["/a/x.test.ts"]) None ;;;
                     Reporter.onCollected 0 (Some ["/a/y.test.ts"])) st) in
  let st2 := set_engines (engines (watching None)) st1 in
  Reporter.isCollecting 0 st2 = Ok false st2 ∧
  rpc_events (log (final (process_ticks st2))) =
    [rpc_onCollected (Some "/a/vitest.config.ts") (Some ["/a/y.test.ts"]) true;
     rpc_onFinished (Some "/a/vitest.config.ts") (Some ["/a/x.test.ts"]) None true].
Proof. split; reflexivity. Qed.

(** C10 (no pattern), with [finished] read at the time of the call.  On
    an initialised and wired adapter whose engine has no name-filter
    pattern set, [isCollecting] is false; [onCollected], [onWatcherStart]
    and [onWatcherRerun], called in such a state, each post their one
    event at once, with [collecting = false]; and [onFinished], called in
    such a state, queues a tick which, whenever it runs and whatever the
    state is by then, posts [finished] with [collecting = false]: the
    [finished] events that are sure to carry [false] are those whose call
    was made with no pattern set. *)
Theorem no_pattern_not_collecting st this r e channel :
  initialised st this r e →
  this_rpc r = Some channel →
  testNamePattern e = None →
  Reporter.isCollecting this st = Ok false st ∧
  (∀ files,
     Reporter.onCollected this files st =
       Ok tt (set_log (log st ++
                [IO_post channel (rpc_onCollected (this_id r) files false)]) st)) ∧
  (∀ files errors,
     Reporter.onWatcherStart this files errors st =
       Ok tt (set_log (log st ++
                [IO_post channel (rpc_onWatcherStart (this_id r) files errors false)]) st)) ∧
  (∀ files trigger,
     Reporter.onWatcherRerun this files trigger st =
       Ok tt (set_log (log st ++
                [IO_post channel (rpc_onWatcherRerun (this_id r) files trigger false)]) st)) ∧
  (∀ files errors, ∃ t,
     Reporter.onFinished this files errors st = Ok tt (set_ticks (ticks st ++ [t]) st) ∧
     ∀ st2, reporters st2 !! this = Some r →
       run_tick t st2 =
         Ok tt (set_log (log st2 ++
                  [IO_post channel (rpc_onFinished (this_id r) files errors false)]) st2)).
Proof.
  intros Hinit Hrpc Hnone.
  assert (Hflag : collecting e = false) by (unfold collecting; by rewrite Hnone).
  split; [by rewrite (isCollecting_ok _ _ _ _ Hinit), Hflag|].
  split; [intros files; by rewrite (onCollected_ok _ _ _ _ _ _ Hinit Hrpc), Hflag|].
  split.
  { intros files errors. by rewrite (onWatcherStart_ok _ _ _ _ _ _ _ Hinit Hrpc), Hflag. }
  split.
  { intros files trigger. by rewrite (onWatcherRerun_ok _ _ _ _ _ _ _ Hinit Hrpc), Hflag. }
  intros files errors. eexists.
  rewrite (onFinished_ok _ _ _ _ _ _ Hinit), Hflag. split; [reflexivity|].
  intros st2 Hr2.
  exact (run_tick_ok st2
           {| tick_this := this; tick_files := files; tick_errors := errors;
              tick_collecting := false |} r channel Hr2 Hrpc).
Qed.

Lemma no_pattern_not_collecting_witness :
  Reporter.isCollecting 0 (watching None) = Ok false (watching None).
Proof.
  exact (proj1 (no_pattern_not_collecting _ _ _ _ 0 (watching_initialised None)
                  eq_refl eq_refl)).
Defined.

(** C10, read at the time of the emission, for every [finished] event
    emitted in a state without a pattern, fails, because the flag of a
    [finished] event is the one computed when [onFinished] was called.  [onFinished] is called
    during a dry run, under the sentinel pattern; before the tick runs the
    engine's pattern is cleared.  The state in which the event is emitted
    has no pattern on any engine and [isCollecting] is false there, yet
    the [finished] event emitted in it carries [collecting = true]. *)
Lemma no_pattern_finished_collecting :
  let st := watching (Some {| source := "$a"; flags := "" |}) in
  let st1 := final (Reporter.onFinished 0 (Some ["/a/x.test.ts"]) None st) in
  let st2 := set_engines (engines (watching None)) st1 in
  Forall (fun e => testNamePattern e = None) (engines st2) ∧
  Reporter.isCollecting 0 st2 = Ok false st2 ∧
  posts (log st2) = [] ∧
  posts (log (final (process_ticks st2))) =
    [(0, rpc_onFinished (Some "/a/vitest.config.ts") (Some ["/a/x.test.ts"]) None true)].
Proof. cbn zeta. split; [by repeat constructor|]. by vm_compute. Qed.

(** C7 (initialisation step).  [initVitest(ctx, id)] on adapter [this]
    stores [ctx] and [id] on the adapter and, in the same call, replaces
    engine [ctx] by one in which the [setupFiles] list of the root
    configuration and of every project's configuration is the old list
    (empty when there was none) followed by [setupFilePath]: once for each
    time the configuration object occurs among the root and the projects,
    hence exactly once when these objects are all distinct.  Configuration
    objects that are neither are untouched, and so is the rest of the
    engine. *)
Theorem initVitest_injects w st this ctx id r e :
  reporters st !! this = Some r →
  engines st !! ctx = Some e →
  ∃ e',
    Reporter.initVitest w this ctx id st =
      Ok tt
        (set_engines (<[ctx := e']> (engines st))
           (set_reporters
              (<[this := {| this_rpc := this_rpc r; this_ctx := Some ctx;
                            this_id := Some id |}]> (reporters st))
              st)) ∧
    (∀ cfg, cfg ∈ config_refs e →
       0 < occurrences cfg (config_refs e) ∧
       setupFiles (cfg_objects e' cfg) =
       Some (default [] (setupFiles (cfg_objects e cfg)) ++
             replicate (occurrences cfg (config_refs e)) (setupFilePath w))) ∧
    (NoDup (config_refs e) →
     ∀ cfg, cfg ∈ config_refs e →
       setupFiles (cfg_objects e' cfg) =
       Some (default [] (setupFiles (cfg_objects e cfg)) ++ [setupFilePath w])) ∧
    (∀ cfg, cfg ∉ config_refs e → cfg_objects e' cfg = cfg_objects e cfg) ∧
    config e' = config e ∧ projects e' = projects e ∧
    testNamePattern e' = testNamePattern e.
Proof.
  intros Hr He. exists (inject_setupFile w e).
  assert (Hset : ∀ cfg, cfg ∈ config_refs e →
    0 < occurrences cfg (config_refs e) ∧
    setupFiles (cfg_objects (inject_setupFile w e) cfg) =
    Some (default [] (setupFiles (cfg_objects e cfg)) ++
          replicate (occurrences cfg (config_refs e)) (setupFilePath w))).
  { intros cfg Hin. pose proof (occurrences_pos _ _ Hin) as Hpos. split; [done|].
    rewrite inject_setupFile_fold, append_fold_setupFiles.
    destruct (occurrences cfg (config_refs e)); [lia|done]. }
  split.
  { unfold Reporter.initVitest, bind, read_reporter, write_reporter, read_engine,
      write_engine, modify. rewrite Hr. cbn. by rewrite He. }
  split; [exact Hset|].
  split.
  { intros Hnd cfg Hin. destruct (Hset cfg Hin) as [_ ->].
    by rewrite occurrences_NoDup. }
  split.
  { intros cfg Hnotin. rewrite inject_setupFile_fold.
    generalize (config_refs e) Hnotin. clear. intros refs. revert e.
    induction refs as [|a refs IH]; intros e Hnotin; [done|].
    apply not_elem_of_cons in Hnotin as [Hne Hnotin].
    cbn [foldl]. rewrite IH by done. cbn.
    by rewrite decide_False. }
  rewrite inject_setupFile_fold.
  destruct (append_fold_rest w (config_refs e) e) as (H1 & H2 & H3 & _). done.
Qed.

Lemma initVitest_injects_witness :
  ∃ e',
    Reporter.initVitest example_world 0 0 "/a/vitest.config.ts" constructing =
      Ok tt
        (set_engines (<[0 := e']> (engines constructing))
           (set_reporters
              (<[0 := {| this_rpc := None; this_ctx := Some 0;
                         this_id := Some "/a/vitest.config.ts" |}]>
                 (reporters constructing))
              constructing)).
Proof.
  destruct (initVitest_injects example_world constructing 0 0 "/a/vitest.config.ts"
              blank example_engine eq_refl eq_refl) as (e' & Hrun & _).
  exists e'. exact Hrun.
Defined.

(** [example_engine]'s first project shares the root configuration: that
    object gets the path twice, the second project's own list once. *)
Example inject_shared_config :
  let e' := inject_setupFile example_world example_engine in
  setupFiles (cfg_objects e' 0) =
    Some ["/ext/dist/setupFile.mjs"; "/ext/dist/setupFile.mjs"] ∧
  setupFiles (cfg_objects e' 1) = Some ["./own-setup.ts"; "/ext/dist/setupFile.mjs"] ∧
  setupFiles (cfg_objects e' 2) = None.
Proof. repeat split. Qed.



Example task_update_posted :
  rpc_events
    (log (final (Reporter.onTaskUpdate example_world 0 example_packs (watching None)))) =
  [rpc_onTaskUpdate (Some "/a/vitest.config.ts")
     [{| spack_id := "t1";
         spack_result :=
           Some ("fail",
                 Some [SerObject
                         {| eo_message := "expected 1 to be 2";
                            eo_stack := Some "AssertionError";
                            eo_stacks :=
                              Some [{| ps_method := "AssertionError";
                                       ps_file := "/a/x.test.ts";
                                       ps_line := 3; ps_column := 1 |}] |};
                       SerNotObject (JString "oops")]);
         spack_meta := "" |};
      {| spack_id := "t2"; spack_result := None; spack_meta := "" |};
      {| spack_id := "t3";
         spack_result :=
           Some ("fail",
                 Some [SerObject
                         {| eo_message := "expected 1 to be 2";
                            eo_stack := None;
                            eo_stacks := Some [] |}]);
         spack_meta := "" |}]].
Proof. reflexivity. Qed.

(** * Further properties *)

(** ** The bootstrap, whichever way it ends *)

Lemma loop_cwd_app w metas1 metas2 dir :
  loop_cwd w (metas1 ++ metas2) dir = loop_cwd w metas2 (loop_cwd w metas1 dir).
Proof. apply foldl_app. Qed.

Lemma enters_app w metas1 metas2 : ∀ dir,
  enters w dir (metas1 ++ metas2) ↔
  enters w dir metas1 ∧ enters w (loop_cwd w metas1 dir) metas2.
Proof.
  induction metas1 as [|meta rest IH]; intros dir; cbn; [tauto|].
  rewrite IH. tauto.
Qed.

(** The loop is left at the first target whose directory cannot be
    entered. *)
Lemma init_loop_chdir_throws w pre m post err vitest errors st :
  enters w (process_cwd st) pre →
  Forall (caught w) pre →
  chdir_fails w (loop_cwd w pre (process_cwd st)) (dirname w (meta_id m)) = Some err →
  init_loop w (pre ++ m :: post) vitest errors st =
    Throw err
       {| process_cwd := loop_cwd w pre (process_cwd st);
          cwd := cwd st; listeners := listeners st;
          engines := engines st ++ new_engines w pre;
          reporters := reporters st ++ new_reporters w pre (length (engines st));
          channels := channels st; error_objects := error_objects st;
          ticks := ticks st;
          log := log st ++ loop_log w pre (length (reporters st)) ++
                 [IO_chdir (dirname w (meta_id m))] |}.
Proof.
  intros Hdirs Hcaught Hm. rewrite init_loop_app by done.
  cbn [init_loop]. unfold bind at 1. rewrite (chdir_throws _ _ _ err) by exact Hm.
  cbn. by rewrite <- app_assoc.
Qed.

(** It is also left at the first target whose construction fails with
    [undefined] or [null]: its directory has been entered and the attempt
    has been made, but the inner [catch] throws. *)
Lemma init_loop_catch_throws w pre m post err vitest errors st :
  enters w (process_cwd st) (pre ++ [m]) →
  Forall (caught w) pre →
  construct w m = inl err →
  nullish err = true →
  init_loop w (pre ++ m :: post) vitest errors st =
    Throw (stack_read_error err)
       {| process_cwd := loop_cwd w (pre ++ [m]) (process_cwd st);
          cwd := cwd st; listeners := listeners st;
          engines := engines st ++ new_engines w pre;
          reporters := reporters st ++ new_reporters w pre (length (engines st)) ++
                       new_reporters w [m] 0;
          channels := channels st; error_objects := error_objects st;
          ticks := ticks st;
          log := log st ++ loop_log w pre (length (reporters st)) ++
                 loop_log w [m]
                   (length (reporters st) +
                    length (new_reporters w pre (length (engines st)))) |}.
Proof.
  intros [Hdirs [Hdir _]]%enters_app Hcaught Hm Hnull. rewrite init_loop_app by done.
  cbn [init_loop]. unfold bind at 1. rewrite chdir_ok by exact Hdir.
  unfold bind at 1, try. rewrite loop_cwd_app.
  cbn [new_reporters loop_log loop_cwd foldl]. unfold construct in Hm |- *.
  destruct (import_fails w (meta_vitestNodePath m)) as [err'|] eqn:Himp.
  - injection Hm as ->. erewrite initVitest_import_fails by done.
    unfold bind at 1. rewrite get_stack_nullish by done.
    cbn. rewrite app_nil_r, <- !app_assoc. reflexivity.
  - rewrite Hm. erewrite initVitest_create_fails by done.
    unfold bind at 1. rewrite get_stack_nullish by done.
    cbn. rewrite !length_app, <- !app_assoc. reflexivity.
Qed.

(** Every run of the loop goes one of three ways. *)
Lemma init_loop_cases w metas : ∀ dir,
  (enters w dir metas ∧ Forall (caught w) metas) ∨
  (∃ pre m post err,
     metas = pre ++ m :: post ∧ enters w dir pre ∧ Forall (caught w) pre ∧
     chdir_fails w (loop_cwd w pre dir) (dirname w (meta_id m)) = Some err) ∨
  (∃ pre m post err,
     metas = pre ++ m :: post ∧ enters w dir (pre ++ [m]) ∧ Forall (caught w) pre ∧
     construct w m = inl err ∧ nullish err = true).
Proof.
  induction metas as [|meta rest IH]; intros dir; [by left|].
  destruct (chdir_fails w dir (dirname w (meta_id meta))) as [err|] eqn:Hdir.
  { right. left. exists [], meta, rest, err. by repeat split. }
  assert (Hmeta : caught w meta ∨ ∃ err, construct w meta = inl err ∧ nullish err = true).
  { unfold caught. destruct (construct w meta) as [[| |stack]|e].
    - right. by eexists.
    - right. by eexists.
    - left. by intros ? [= <-].
    - by left. }
  destruct Hmeta as [Hmeta|(err & Hc & Hnull)].
  2:{ right. right. exists [], meta, rest, err. by repeat split. }
  destruct (IH (chdir_to w dir (dirname w (meta_id meta))))
    as [[Hdirs Hcaught]|[(pre & m & post & err & -> & Hdirs & Hcaught & Hm)|
                         (pre & m & post & err & -> & Hdirs & Hcaught & Hc & Hnull)]].
  - left. split; [by split|by constructor].
  - right. left. exists (meta :: pre), m, post, err.
    split; [done|]. split; [by split|]. split; [by constructor|done].
  - right. right. exists (meta :: pre), m, post, err.
    split; [done|]. split; [by split|]. split; [by constructor|done].
Qed.

Lemma loader_ok_or_throws w data :
  loader_ok w data ∨
  ∃ loader err,
    msg_loader data = Some loader ∧ loader ≠ "" ∧ register_fails w loader = Some err.
Proof.
  unfold loader_ok. destruct (msg_loader data) as [loader|]; [|by left].
  destruct (decide (loader = "")) as [|Hne]; [by left|].
  destruct (register_fails w loader) as [err|] eqn:Hreg; [|by left].
  right. exists loader, err. by repeat split.
Qed.

Lemma loader_log_throws data loader :
  msg_loader data = Some loader → loader ≠ "" → loader_log data = [IO_register loader].
Proof. intros Hl Hne. unfold loader_log. by rewrite Hl, decide_False. Qed.

(** The four ways in which an exception reaches the outer [catch]. *)
Lemma init_try_register_throws w data st loader err :
  msg_loader data = Some loader → loader ≠ "" →
  register_fails w loader = Some err →
  init_try w data st = Throw err (set_log (log st ++ [IO_register loader]) st).
Proof.
  intros Hloader Hne Hfail.
  unfold init_try. unfold bind at 1. rewrite Hloader, decide_False by done.
  unfold register, bind, emit, modify. by rewrite Hfail.
Qed.

Lemma init_try_chdir_throws w data st pre m post err :
  loader_ok w data →
  msg_meta data = pre ++ m :: post →
  enters w (process_cwd st) pre →
  Forall (caught w) pre →
  chdir_fails w (loop_cwd w pre (process_cwd st)) (dirname w (meta_id m)) = Some err →
  init_try w data st =
    Throw err
      {| process_cwd := loop_cwd w pre (process_cwd st); cwd := cwd st;
         listeners := listeners st;
         engines := engines st ++ new_engines w pre;
         reporters := reporters st ++ new_reporters w pre (length (engines st));
         channels := channels st; error_objects := error_objects st;
         ticks := ticks st;
         log := log st ++ loader_log data ++ loop_log w pre (length (reporters st)) ++
                [IO_chdir (dirname w (meta_id m))] |}.
Proof.
  intros Hloader Hmetas Hdirs Hcaught Hm.
  unfold init_try. unfold bind at 1. rewrite (loader_step _ _ _ Hloader).
  unfold bind at 1. rewrite Hmetas, (init_loop_chdir_throws _ _ _ _ err) by done.
  cbn. rewrite <- !app_assoc. reflexivity.
Qed.

Lemma init_try_catch_throws w data st pre m post err :
  loader_ok w data →
  msg_meta data = pre ++ m :: post →
  enters w (process_cwd st) (pre ++ [m]) →
  Forall (caught w) pre →
  construct w m = inl err →
  nullish err = true →
  init_try w data st =
    Throw (stack_read_error err)
      {| process_cwd := loop_cwd w (pre ++ [m]) (process_cwd st); cwd := cwd st;
         listeners := listeners st;
         engines := engines st ++ new_engines w pre;
         reporters := reporters st ++ new_reporters w pre (length (engines st)) ++
                      new_reporters w [m] 0;
         channels := channels st; error_objects := error_objects st;
         ticks := ticks st;
         log := log st ++ loader_log data ++ loop_log w pre (length (reporters st)) ++
                loop_log w [m]
                  (length (reporters st) +
                   length (new_reporters w pre (length (engines st)))) |}.
Proof.
  intros Hloader Hmetas Hdirs Hcaught Hm Hnull.
  unfold init_try. unfold bind at 1. rewrite (loader_step _ _ _ Hloader).
  unfold bind at 1. rewrite Hmetas, (init_loop_catch_throws _ _ _ _ err) by done.
  cbn. rewrite <- !app_assoc. reflexivity.
Qed.

Lemma init_try_restore_throws w data st err :
  loader_ok w data →
  enters w (process_cwd st) (msg_meta data) →
  Forall (caught w) (msg_meta data) →
  chdir_fails w (loop_cwd w (msg_meta data) (process_cwd st)) (cwd st) = Some err →
  init_try w data st =
    Throw err
      {| process_cwd := loop_cwd w (msg_meta data) (process_cwd st); cwd := cwd st;
         listeners := listeners st;
         engines := engines st ++ new_engines w (msg_meta data);
         reporters := reporters st ++ new_reporters w (msg_meta data) (length (engines st));
         channels := channels st; error_objects := error_objects st;
         ticks := ticks st;
         log := log st ++ loader_log data ++
                loop_log w (msg_meta data) (length (reporters st)) ++
                [IO_chdir (cwd st)] |}.
Proof.
  intros Hloader Hdirs Hcaught Hback.
  unfold init_try. unfold bind at 1. rewrite (loader_step _ _ _ Hloader).
  unfold bind at 1. rewrite init_loop_ok by done. cbn [fst snd].
  unfold bind at 1, get. unfold bind at 1. cbn [cwd].
  rewrite (chdir_throws _ _ _ err) by exact Hback. cbn. rewrite <- !app_assoc. reflexivity.
Qed.

Lemma filter_nil_not_exists {A} (P : A → Prop) `{∀ x, Decision (P x)} (l : list A) :
  filter P l = [] ↔ ¬ Exists P l.
Proof.
  induction l as [|x l IH].
  - split; [intros _ H'; inversion H'|done].
  - destruct (decide (P x)) as [Hx|Hx].
    + rewrite filter_cons_True by done. split; [done|]. intros Hn. destruct Hn. by left.
    + rewrite filter_cons_False by done. rewrite IH. split.
      * intros Hn Hex. inversion Hex; subst; [done|]. by apply Hn.
      * intros Hn Hex. apply Hn. by right.
Qed.

Lemma new_entries_nil w metas neng nrep :
  new_entries w metas neng nrep = [] ↔ ¬ Exists (fun meta => constructed w meta) metas.
Proof.
  rewrite <- filter_nil_not_exists, <- (new_entries_meta w metas neng nrep).
  split; [by intros ->|]. by intros ?%fmap_nil_inv.
Qed.

Lemma registrations_app evs1 evs2 :
  registrations (evs1 ++ evs2) = registrations evs1 ++ registrations evs2.
Proof. apply omap_app. Qed.

Lemma loop_log_registrations w metas : ∀ nrep, registrations (loop_log w metas nrep) = [].
Proof.
  induction metas as [|meta rest IH]; intros nrep; cbn; [done|].
  destruct (import_fails w (meta_vitestNodePath meta)); cbn; apply IH.
Qed.

(** What is common to every run of the outer [try] that ends in its
    [catch]. *)
Lemma init_try_cases w data st :
  no_toplevel_failure w st data ∨
  ∃ err st1 rest,
    init_try w data st = Throw err st1 ∧
    log st1 = log st ++ loader_log data ++ rest ∧
    control_messages rest = [] ∧ registrations rest = [] ∧
    cwd st1 = cwd st ∧ listeners st1 = listeners st ∧ channels st1 = channels st ∧
    ticks st1 = ticks st ∧ error_objects st1 = error_objects st.
Proof.
  destruct (loader_ok_or_throws w data) as [Hloader|(loader & err & Hl & Hne & Hfail)].
  2:{ right. exists err, (set_log (log st ++ [IO_register loader]) st), [].
      split; [by apply init_try_register_throws|].
      rewrite (loader_log_throws _ _ Hl Hne). cbn. by repeat split. }
  destruct (init_loop_cases w (msg_meta data) (process_cwd st))
    as [[Hdirs Hcaught]|[(pre & m & post & err & Hmetas & Hdirs & Hcaught & Hm)|
                         (pre & m & post & err & Hmetas & Hdirs & Hcaught & Hc & Hnull)]].
  - destruct (chdir_fails w (loop_cwd w (msg_meta data) (process_cwd st)) (cwd st))
      as [err|] eqn:Hback; [|by left].
    right. eexists err, _, (loop_log w (msg_meta data) (length (reporters st)) ++
                            [IO_chdir (cwd st)]).
    split; [by apply init_try_restore_throws|]. cbn.
    split; [by rewrite <- ?app_assoc|].
    split; [by rewrite control_messages_app, loop_log_control|].
    split; [by rewrite registrations_app, loop_log_registrations|]. done.
  - right. eexists err, _, (loop_log w pre (length (reporters st)) ++
                            [IO_chdir (dirname w (meta_id m))]).
    split; [by eapply init_try_chdir_throws|]. cbn.
    split; [by rewrite <- ?app_assoc|].
    split; [by rewrite control_messages_app, loop_log_control|].
    split; [by rewrite registrations_app, loop_log_registrations|]. done.
  - right. eexists (stack_read_error err), _, (loop_log w pre (length (reporters st)) ++ _).
    split; [by eapply init_try_catch_throws|]. cbn [log cwd listeners channels ticks error_objects].
    split; [reflexivity|].
    split; [by rewrite control_messages_app, !loop_log_control|].
    split; [by rewrite registrations_app, !loop_log_registrations|]. done.
Qed.

(** How [init] ends: the summary every case of it fits. *)
Lemma init_summary w data st :
  msg_type data = "init" →
  ∃ rest sent,
    log (final (init w data st)) = log st ++ loader_log data ++ rest ++ sent ∧
    control_messages rest = [] ∧ registrations rest = [] ∧
    cwd (final (init w data st)) = cwd st ∧
    ticks (final (init w data st)) = ticks st ∧
    error_objects (final (init w data st)) = error_objects st ∧
    ((∃ st' m vitestById,
        init w data st = Ok tt st' ∧ sent = [IO_send m] ∧ out_type m = "ready" ∧
        no_toplevel_failure w st data ∧
        Exists (fun meta => constructed w meta) (msg_meta data) ∧
        listeners st' = listeners_after_off (listeners st) ++ [L_rpc (length (channels st))] ∧
        channels st' = channels st ++ [vitestById])
     ∨
     (∃ st' m,
        init w data st = Ok tt st' ∧ sent = [IO_send m] ∧ out_type m = "error" ∧
        ¬ (no_toplevel_failure w st data ∧
           Exists (fun meta => constructed w meta) (msg_meta data)) ∧
        listeners st' = listeners_after_off (listeners st) ∧
        channels st' = channels st)
     ∨
     (∃ err st1,
        init_try w data (set_listeners (listeners_after_off (listeners st)) st)
          = Throw err st1 ∧
        nullish err = true ∧
        init w data st = Throw (stack_read_error err) st1 ∧ sent = [] ∧
        ¬ no_toplevel_failure w st data ∧
        listeners st1 = listeners_after_off (listeners st) ∧
        channels st1 = channels st)).
Proof.
  intros Htype. rewrite (init_off _ _ _ Htype).
  set (st0 := set_listeners (listeners_after_off (listeners st)) st).
  destruct (init_try_cases w data st0)
    as [Hok|(err & st1 & rest & Htry & Hlog & Hctl & Hreg & Hcwd & Hls & Hch & Hticks & Hobjs)].
  - assert (Hok' : no_toplevel_failure w st data) by exact Hok.
    rewrite (init_try_ok _ _ _ Hok). subst st0.
    cbn [set_listeners cwd engines reporters channels error_objects ticks log listeners
         process_cwd].
    destruct (new_entries w (msg_meta data) (length (engines st)) (length (reporters st)))
      as [|v vitest] eqn:Hentries.
    + eexists (loop_log w (msg_meta data) (length (reporters st)) ++ [IO_chdir (cwd st)]), _.
      cbn [final log cwd ticks error_objects].
      split; [by rewrite <- ?app_assoc|].
      split; [by rewrite !control_messages_app, loop_log_control|].
      split; [by rewrite !registrations_app, loop_log_registrations|].
      repeat (split; [done|]). right. left. eexists _, _.
      split; [reflexivity|]. repeat (split; [done|]).
      split; [|done]. intros [_ Hex]. by apply new_entries_nil in Hentries.
    + eexists (loop_log w (msg_meta data) (length (reporters st)) ++
               [IO_chdir (cwd st); IO_createWorkerRPC (vitestById_of (v :: vitest))]), _.
      cbn [final log cwd ticks error_objects].
      split; [by rewrite <- ?app_assoc|].
      split; [by rewrite !control_messages_app, loop_log_control|].
      split; [by rewrite !registrations_app, loop_log_registrations|].
      repeat (split; [done|]). left. eexists _, _, _.
      split; [reflexivity|]. repeat (split; [done|]).
      split; [|done].
      destruct (decide (Exists (fun meta => constructed w meta) (msg_meta data)))
        as [Hex|Hex]; [done|].
      apply (new_entries_nil w _ (length (engines st)) (length (reporters st))) in Hex.
      by rewrite Hex in Hentries.
  - rewrite Htry.
    assert (Hnot : ¬ no_toplevel_failure w st data).
    { intros Hok. assert (Hok0 : no_toplevel_failure w st0 data) by exact Hok.
      by rewrite (init_try_ok _ _ _ Hok0) in Htry. }
    destruct (nullish err) eqn:Hnull.
    { rewrite (error_nullish _ _ Hnull). exists rest, []. cbn [final].
      rewrite Hlog, app_nil_r. repeat (split; [done|]). right. right.
      exists err, st1. subst st0. by repeat split. }
    destruct err as [| |stack]; try done.
    + rewrite error_ok. eexists rest, _. cbn [final set_log log cwd ticks error_objects].
      rewrite Hlog. split; [by rewrite <- ?app_assoc|].
      repeat (split; [done|]). right. left. eexists _, _.
      split; [reflexivity|]. repeat (split; [done|]).
      split; [by intros [? _]|done].
Qed.

Lemma new_engines_constructed w metas :
  length (new_engines w metas) = length (filter (fun meta => constructed w meta) metas).
Proof. by rewrite (new_engines_length w metas 0 0), new_entries_length. Qed.

(** X1.  The handler answers an [init] message at most once, and the
    control message it sends is the last thing it does.  It returns
    normally, having sent exactly one, unless what reaches the outer
    [catch] is [undefined] or [null]: then [error] throws when it reads
    [err.stack], nothing is sent, and the handler rejects with that
    [TypeError].  The message is [ready] precisely when nothing reached
    the outer [catch] and at least one engine was built, and [error]
    otherwise; so a payload without targets is answered with [error].  The
    handler queues no tick and touches neither the error objects nor the
    module constant [cwd]. *)
Theorem init_answers_once w st data :
  msg_type data = "init" →
  ∃ before sent,
    log (final (init w data st)) = log st ++ before ++ sent ∧
    control_messages before = [] ∧
    match init w data st with
    | Ok _ _ =>
        ∃ m,
          sent = [IO_send m] ∧
          (out_type m = "ready" ∨ out_type m = "error") ∧
          (out_type m = "ready" ↔
             no_toplevel_failure w st data ∧
             Exists (fun meta => constructed w meta) (msg_meta data)) ∧
          (msg_meta data = [] → out_type m = "error")
    | Throw e _ =>
        sent = [] ∧
        ¬ no_toplevel_failure w st data ∧
        ∃ err st1,
          init_try w data (set_listeners (listeners_after_off (listeners st)) st)
            = Throw err st1 ∧
          nullish err = true ∧
          e = match err with
              | Null => TypeError_of "null" "stack"
              | _ => TypeError_of "undefined" "stack"
              end
    end ∧
    ((∀ err st1,
        init_try w data (set_listeners (listeners_after_off (listeners st)) st)
          = Throw err st1 →
        nullish err = false) →
     ∃ st', init w data st = Ok tt st') ∧
    cwd (final (init w data st)) = cwd st ∧
    ticks (final (init w data st)) = ticks st ∧
    error_objects (final (init w data st)) = error_objects st.
Proof.
  intros Htype.
  destruct (init_summary w data st Htype)
    as (rest & sent & Hlog & Hctl & _ & Hcwd & Hticks & Hobjs & Hcase).
  exists (loader_log data ++ rest), sent.
  split; [by rewrite <- app_assoc|].
  split; [by rewrite control_messages_app, loader_log_control|].
  split; [|split; [|done]].
  - destruct Hcase as [(st' & m & vb & -> & -> & Hready & Hok & Hex & _)|
                       [(st' & m & -> & -> & Herror & Hnot & _)|
                        (err & st1 & Htry & Hnull & -> & -> & Hnot & _)]].
    + exists m. split; [done|]. split; [by left|]. split; [done|].
      intros Hnil. rewrite Hnil in Hex. inversion Hex.
    + exists m. split; [done|]. split; [by right|]. split; [|done].
      rewrite Herror. by split.
    + split; [done|]. split; [done|]. exists err, st1. by repeat split.
  - intros Hcaught.
    destruct Hcase as [(st' & m & vb & -> & _)|
                       [(st' & m & -> & _)|(err & st1 & Htry & Hnull & _)]];
      [by eexists|by eexists|].
    apply Hcaught in Htry. congruence.
Qed.

Lemma init_answers_once_witness :
  ∃ before sent,
    log (final (init example_world (init_message None [target_a; target_gone]) loaded))
      = log loaded ++ before ++ sent ∧
    control_messages before = [].
Proof.
  destruct (init_answers_once example_world loaded
              (init_message None [target_a; target_gone]) eq_refl)
    as (before & sent & Hlog & Hctl & _).
  exists before, sent. split; [exact Hlog|exact Hctl].
Defined.

(** X2.  [register] is called exactly when the payload names a loader
    that is not the empty string, and then once and before anything else
    the handler does. *)
Theorem init_registers_first w st data :
  msg_type data = "init" →
  ∃ evs,
    log (final (init w data st)) = log st ++ evs ∧
    registrations evs =
      match msg_loader data with
      | Some loader => if decide (loader = "") then [] else [loader]
      | None => []
      end ∧
    ∀ loader, loader ∈ registrations evs → ∃ rest, evs = IO_register loader :: rest.
Proof.
  intros Htype.
  destruct (init_summary w data st Htype)
    as (rest & sent & Hlog & _ & Hreg & _ & _ & _ & Hcase).
  exists (loader_log data ++ rest ++ sent).
  split; [done|].
  assert (Hsent : registrations sent = []).
  { destruct Hcase as [(? & ? & ? & _ & -> & _)|[(? & ? & _ & -> & _)|
                       (? & ? & _ & _ & _ & -> & _)]]; done. }
  rewrite !registrations_app, Hreg, Hsent. cbn. rewrite app_nil_r.
  unfold loader_log. destruct (msg_loader data) as [loader|]; [|by split; [|intros ? ?%elem_of_nil]].
  destruct (decide (loader = "")); cbn.
  - split; [done|]. by intros ? ?%elem_of_nil.
  - split; [done|]. intros l ->%list_elem_of_singleton. by eexists.
Qed.

Lemma init_registers_first_witness :
  ∃ evs,
    log (final (init example_world (init_message (Some "") [target_a]) loaded))
      = log loaded ++ evs ∧
    registrations evs = [].
Proof.
  destruct (init_registers_first example_world loaded
              (init_message (Some "") [target_a]) eq_refl)
    as (evs & Hlog & Hreg & _).
  exists evs. split; [exact Hlog|exact Hreg].
Defined.



(** X4.  When [process.chdir] throws for a target, the targets after it
    are never attempted and no [ready] is sent: what was thrown goes to
    the outer [catch], which sends the flat [error] message when it has a
    [stack] to read.  The process is left where entering the directories
    of the earlier targets, each resolved against the one before, has
    taken it: nothing changes it back.  The engines built for the earlier
    targets stay, but no channel is made and none of their adapters is
    wired. *)
Theorem init_stops_at_missing_directory w st data pre m post err :
  msg_type data = "init" →
  loader_ok w data →
  msg_meta data = pre ++ m :: post →
  enters w (process_cwd st) pre →
  Forall (caught w) pre →
  chdir_fails w
    (foldl (fun from meta => chdir_to w from (dirname w (meta_id meta))) (process_cwd st) pre)
    (dirname w (meta_id m)) = Some err →
  let st' := final (init w data st) in
  ∃ evs engines',
    log st' = log st ++ evs ∧
    match err with
    | Thrown stack =>
        init w data st = Ok tt st' ∧
        control_messages evs =
          [{| out_type := "error";
              out_errors :=
                JArray [JString "";
                        JString match stack with
                                | Some s => s
                                | None => "undefined"
                                end] |}]
    | _ => (∃ e, init w data st = Throw e st') ∧ control_messages evs = []
    end ∧
    imports evs = meta_vitestNodePath <$> pre ∧
    chdirs evs =
      ((fun meta => dirname w (meta_id meta)) <$> pre) ++ [dirname w (meta_id m)] ∧
    process_cwd st' =
      foldl (fun from meta => chdir_to w from (dirname w (meta_id meta))) (process_cwd st) pre ∧
    engines st' = engines st ++ engines' ∧
    length engines' = length (filter (fun meta => constructed w meta) pre) ∧
    channels st' = channels st ∧
    channels_made evs = [] ∧
    Forall (fun r => this_rpc r = None) (drop (length (reporters st)) (reporters st')).
Proof.
  intros Htype Hloader Hmetas Hdirs Hcaught Hm. cbn zeta.
  rewrite (init_off _ _ _ Htype).
  rewrite (init_try_chdir_throws _ _ _ _ _ _ err Hloader Hmetas) by done.
  assert (Hevs :
    ∀ tail,
      imports (loader_log data ++ loop_log w pre (length (reporters st)) ++
               [IO_chdir (dirname w (meta_id m))] ++ tail) =
        (meta_vitestNodePath <$> pre) ++ imports tail ∧
      chdirs (loader_log data ++ loop_log w pre (length (reporters st)) ++
              [IO_chdir (dirname w (meta_id m))] ++ tail) =
        ((fun meta => dirname w (meta_id meta)) <$> pre) ++
        dirname w (meta_id m) :: chdirs tail ∧
      channels_made (loader_log data ++ loop_log w pre (length (reporters st)) ++
                     [IO_chdir (dirname w (meta_id m))] ++ tail) = channels_made tail ∧
      control_messages (loader_log data ++ loop_log w pre (length (reporters st)) ++
                        [IO_chdir (dirname w (meta_id m))] ++ tail) = control_messages tail).
  { intros tail.
    rewrite !control_messages_app, !imports_app, !chdirs_app, !channels_made_app.
    rewrite loader_log_control, loader_log_imports, loader_log_chdirs, loader_log_channels.
    rewrite loop_log_control, loop_log_imports, loop_log_chdirs, loop_log_channels.
    done. }
  destruct err as [| |stack].
  - destruct (Hevs []) as (Himp & Hch & Hmade & Hctl). rewrite app_nil_r in *.
    eexists _, (new_engines w pre). cbn.
    split; [reflexivity|]. split; [split; [by eexists|done]|].
    rewrite app_nil_r in Himp.
    split; [done|]. split; [done|]. split; [done|]. split; [done|].
    split; [apply new_engines_constructed|]. split; [done|]. split; [done|].
    rewrite drop_app_length. apply new_reporters_unwired.
  - destruct (Hevs []) as (Himp & Hch & Hmade & Hctl). rewrite app_nil_r in *.
    eexists _, (new_engines w pre). cbn.
    split; [reflexivity|]. split; [split; [by eexists|done]|].
    rewrite app_nil_r in Himp.
    split; [done|]. split; [done|]. split; [done|]. split; [done|].
    split; [apply new_engines_constructed|]. split; [done|]. split; [done|].
    rewrite drop_app_length. apply new_reporters_unwired.
  - rewrite error_ok.
    match goal with |- context [IO_send ?msg] =>
      destruct (Hevs [IO_send msg]) as (Himp & Hch & Hmade & Hctl) end.
    eexists _, (new_engines w pre). cbn [final set_log log process_cwd engines reporters channels].
    split; [by rewrite <- !app_assoc|]. split; [split; [reflexivity|exact Hctl]|].
    cbn in Himp. rewrite app_nil_r in Himp.
    split; [done|]. split; [done|]. split; [done|]. split; [done|].
    split; [apply new_engines_constructed|]. split; [done|]. split; [done|].
    rewrite drop_app_length. apply new_reporters_unwired.
Qed.

Lemma init_stops_at_missing_directory_witness :
  process_cwd
    (final (init example_world (init_message None [target_a; target_gone; target_b]) loaded))
  = "/a".
Proof.
  destruct (init_stops_at_missing_directory example_world loaded
              (init_message None [target_a; target_gone; target_b])
              [target_a] target_gone [target_b] _ eq_refl I eq_refl
              (conj eq_refl I) ltac:(repeat constructor; by intros err [= <-]) eq_refl)
    as (evs & engines' & _ & _ & _ & _ & Hdir & _).
  exact Hdir.
Defined.

(** A target whose identity is a relative path: its directory is [.],
    entering it leaves the process where it is, and that is where the
    process stays when the next directory cannot be entered. *)
Example relative_identity :
  let st' := final (deliver example_world
                      (init_message None [target_here; target_gone]) loaded) in
  dirname example_world (meta_id target_here) = "." ∧
  chdirs (log st') = ["."; "/gone"] ∧
  process_cwd st' = "/home".
Proof. by vm_compute. Qed.

(** X16.  What reading the [stack] of [undefined] or [null] does to the
    bootstrap.  When the construction of a target fails with such a value,
    the inner [catch] throws a [TypeError]: no entry is recorded for the
    target, the targets after it are never attempted, and the outer
    [catch] sends the flat [error] message with the stack of that
    [TypeError] instead of [ready].  The process stays in the directory of
    the target that failed; the engines built for the earlier targets
    stay, but no channel is made and none of their adapters is wired. *)
Theorem init_stops_at_nullish_rejection w st data pre m post err :
  msg_type data = "init" →
  loader_ok w data →
  msg_meta data = pre ++ m :: post →
  enters w (process_cwd st) (pre ++ [m]) →
  Forall (caught w) pre →
  construct w m = inl err →
  nullish err = true →
  ∃ st' evs engines',
    init w data st = Ok tt st' ∧
    log st' = log st ++ evs ∧
    control_messages evs =
      [{| out_type := "error";
          out_errors :=
            JArray [JString "";
                    JString ("TypeError: Cannot read properties of " +:+
                             match err with
                             | Null => "null"
                             | _ => "undefined"
                             end +:+ " (reading 'stack')")] |}] ∧
    imports evs = meta_vitestNodePath <$> pre ++ [m] ∧
    chdirs evs = (fun meta => dirname w (meta_id meta)) <$> pre ++ [m] ∧
    process_cwd st' =
      foldl (fun from meta => chdir_to w from (dirname w (meta_id meta)))
        (process_cwd st) (pre ++ [m]) ∧
    engines st' = engines st ++ engines' ∧
    length engines' = length (filter (fun meta => constructed w meta) pre) ∧
    channels st' = channels st ∧
    channels_made evs = [] ∧
    Forall (fun r => this_rpc r = None) (drop (length (reporters st)) (reporters st')).
Proof.
  intros Htype Hloader Hmetas Hdirs Hcaught Hm Hnull.
  rewrite (init_off _ _ _ Htype).
  rewrite (init_try_catch_throws _ _ _ _ _ _ err Hloader Hmetas) by done.
  assert (Herr : stack_read_error err =
            Thrown (Some ("TypeError: Cannot read properties of " +:+
                          match err with
                          | Null => "null"
                          | _ => "undefined"
                          end +:+ " (reading 'stack')"))) by (by destruct err).
  rewrite Herr, error_ok.
  eexists _, _, (new_engines w pre). split; [reflexivity|].
  cbn [set_log log process_cwd engines reporters channels String_of].
  split; [by rewrite <- !app_assoc|].
  rewrite !control_messages_app, !imports_app, !chdirs_app, !channels_made_app.
  rewrite loader_log_control, loader_log_imports, loader_log_chdirs, loader_log_channels.
  rewrite !loop_log_control, !loop_log_imports, !loop_log_chdirs, !loop_log_channels.
  rewrite !fmap_app. cbn. rewrite ?app_nil_r.
  repeat (split; [done|]).
  split; [apply new_engines_constructed|]. split; [done|]. split; [done|].
  rewrite drop_app_length. apply Forall_app.
  split; [apply new_reporters_unwired|apply (new_reporters_unwired w [m] 0)].
Qed.

Lemma init_stops_at_nullish_rejection_witness :
  ∃ st',
    init example_world (init_message None [target_a; target_u; target_b]) loaded = Ok tt st' ∧
    process_cwd st' = "/u".
Proof.
  destruct (init_stops_at_nullish_rejection example_world loaded
              (init_message None [target_a; target_u; target_b])
              [target_a] target_u [target_b] Undefined eq_refl I eq_refl
              (conj eq_refl (conj eq_refl I))
              ltac:(repeat constructor; by intros err [= <-]) eq_refl eq_refl)
    as (st' & _ & _ & Hrun & _ & _ & _ & _ & Hdir & _).
  exists st'. split; [exact Hrun|exact Hdir].
Defined.

(** X17.  The working directory after a bootstrap that ends in [ready] or
    in the [error] of a total failure, that is, when nothing reaches the
    outer [catch].  Take a process that is still in the directory the
    module was loaded in, that directory being one that [process.chdir]
    leads back to from wherever the loop has taken the process (it is the
    absolute path [process.cwd()] gave).  Afterwards the working
    directory is what it was before, however many targets there were.  In
    between the handler changes directory once per target, and the change
    back comes only after the last target's construction has been
    attempted: no [chdir] and no construction follows it. *)
Theorem init_restores_directory w st data :
  msg_type data = "init" →
  no_toplevel_failure w st data →
  cwd st = process_cwd st →
  chdir_to w
    (foldl (fun from meta => chdir_to w from (dirname w (meta_id meta)))
       (process_cwd st) (msg_meta data))
    (cwd st) = cwd st →
  ∃ st' before after type errors,
    init w data st = Ok tt st' ∧
    process_cwd st' = process_cwd st ∧
    log st' = log st ++ before ++ IO_chdir (process_cwd st) :: after ∧
    chdirs before = (fun meta => dirname w (meta_id meta)) <$> msg_meta data ∧
    imports before = meta_vitestNodePath <$> msg_meta data ∧
    chdirs after = [] ∧
    imports after = [] ∧
    control_messages before = [] ∧
    control_messages after = [{| out_type := type; out_errors := errors |}] ∧
    (type = "ready" ∨ type = "error").
Proof.
  intros Htype Hok Hcwd Hback. rewrite (init_ok _ _ _ Htype Hok).
  fold (loop_cwd w (msg_meta data) (process_cwd st)) in Hback. rewrite Hback, Hcwd.
  assert (Hbefore :
    chdirs (loader_log data ++ loop_log w (msg_meta data) (length (reporters st))) =
      (fun meta => dirname w (meta_id meta)) <$> msg_meta data ∧
    imports (loader_log data ++ loop_log w (msg_meta data) (length (reporters st))) =
      meta_vitestNodePath <$> msg_meta data ∧
    control_messages
      (loader_log data ++ loop_log w (msg_meta data) (length (reporters st))) = []).
  { rewrite chdirs_app, imports_app, control_messages_app.
    rewrite loader_log_chdirs, loader_log_imports, loader_log_control.
    by rewrite loop_log_chdirs, loop_log_imports, loop_log_control. }
  destruct Hbefore as (Hdirs & Himports & Hnone).
  destruct (new_entries w (msg_meta data) (length (engines st)) (length (reporters st)))
    as [|v vitest].
  - eexists _, (loader_log data ++ loop_log w (msg_meta data) (length (reporters st))),
      _, "error", _.
    split; [reflexivity|]. cbn [process_cwd log].
    split; [reflexivity|].
    split; [by rewrite <- !app_assoc|].
    repeat (split; [done|]). by right.
  - eexists _, (loader_log data ++ loop_log w (msg_meta data) (length (reporters st))),
      _, "ready", _.
    split; [reflexivity|]. cbn [process_cwd log].
    split; [reflexivity|].
    split; [by rewrite <- !app_assoc|].
    repeat (split; [done|]). by left.
Qed.

Lemma init_restores_directory_witness :
  ∃ st', init example_world (init_message (Some "tsx") [target_a; target_here; target_b])
           loaded = Ok tt st' ∧
         process_cwd st' = "/home".
Proof.
  assert (Hok : no_toplevel_failure example_world loaded
                  (init_message (Some "tsx") [target_a; target_here; target_b])).
  { split; [reflexivity|]. split; [by repeat split|]. split; [|reflexivity].
    repeat constructor; by intros err [= <-]. }
  destruct (init_restores_directory example_world loaded
              (init_message (Some "tsx") [target_a; target_here; target_b])
              eq_refl Hok eq_refl eq_refl)
    as (st' & _ & _ & _ & _ & Hrun & Hdir & _).
  exists st'. split; [exact Hrun|exact Hdir].
Defined.

(** X18.  Partial success.  Take an [init] message with N targets, k of
    which fail engine construction, 0 < k < N, in a run where nothing
    reaches the outer [catch]: the loader registers, every
    [process.chdir] succeeds, and no construction fails with [undefined]
    or [null].  The worker sends exactly one control message, a [ready],
    whose error list has exactly k entries: for each failed target, in
    payload order, the pair of its identity and the [stack] property of
    what its construction threw, which is the stack string of an [Error]
    and [undefined] when the thrown value has none.  Exactly N - k engine
    instances are added to the process, the ones [createVitest] returned
    for the other targets; each is held by one entry of the [vitest]
    array, whose adapter ends up initialised on that engine, tagged with
    the target's identity and wired to the one new channel. *)
Theorem init_partial_success w st data k :
  msg_type data = "init" →
  no_toplevel_failure w st data →
  length (filter (fun meta => failed w meta) (msg_meta data)) = k →
  0 < k < length (msg_meta data) →
  ∃ st' evs errors vitest engines',
    init w data st = Ok tt st' ∧
    log st' = log st ++ evs ∧
    control_messages evs = [{| out_type := "ready"; out_errors := JArray errors |}] ∧
    length errors = k ∧
    Forall2
      (fun meta entry =>
         ∃ stack,
           construct w meta = inl (Thrown stack) ∧
           entry = JArray [JString (meta_id meta);
                           match stack with
                           | Some s => JString s
                           | None => JUndefined
                           end])
      (filter (fun meta => failed w meta) (msg_meta data)) errors ∧
    engines st' = engines st ++ engines' ∧
    length engines' = length (msg_meta data) - k ∧
    Forall2
      (fun meta e' => ∃ e, construct w meta = inr e ∧ e' = inject_setupFile w e)
      (filter (fun meta => constructed w meta) (msg_meta data)) engines' ∧
    length vitest = length (msg_meta data) - k ∧
    entry_meta <$> vitest = filter (fun meta => constructed w meta) (msg_meta data) ∧
    entry_vitest <$> vitest = seq (length (engines st)) (length (msg_meta data) - k) ∧
    Forall
      (fun v =>
         reporters st' !! entry_reporter v =
         Some {| this_rpc := Some (length (channels st));
                 this_ctx := Some (entry_vitest v);
                 this_id := Some (meta_id (entry_meta v)) |})
      vitest ∧
    channels st' = channels st ++ [vitestById_of vitest].
Proof.
  intros Htype Hok Hk Hrange.
  pose proof Hok as (_ & _ & Hcaught & _).
  pose proof (failed_constructed_length w (msg_meta data)) as Hsplit.
  pose proof (new_entries_length w (msg_meta data) (length (engines st))
                (length (reporters st))) as Hlen.
  pose proof (new_entries_meta w (msg_meta data) (length (engines st))
                (length (reporters st))) as Hmeta.
  pose proof (new_entries_vitest w (msg_meta data) (length (engines st))
                (length (reporters st))) as Hvit.
  pose proof (new_entries_reporters w (msg_meta data) (length (engines st))
                (reporters st)) as Hrep.
  pose proof (new_engines_length w (msg_meta data) (length (engines st))
                (length (reporters st))) as Heng.
  rewrite (init_ok _ _ _ Htype Hok).
  destruct (new_entries w (msg_meta data) (length (engines st)) (length (reporters st)))
    as [|v vitest] eqn:Hentries.
  { cbn in Hlen. lia. }
  eexists _, _, (startup_errors w (msg_meta data)), (v :: vitest),
    (new_engines w (msg_meta data)).
  split; [reflexivity|]. cbn [log engines reporters channels].
  split; [reflexivity|].
  split; [apply init_log_control_ready|].
  split; [by rewrite startup_errors_length|].
  split; [by apply startup_errors_failed|].
  split; [reflexivity|].
  split; [lia|].
  split; [apply new_engines_built|].
  split; [lia|].
  split; [done|].
  split; [rewrite Hvit; f_equal; lia|].
  split; [|reflexivity].
  apply Forall_forall. intros x Hx.
  rewrite wire_lookup by (by apply list_elem_of_fmap_2).
  rewrite Forall_forall in Hrep. by rewrite (Hrep x Hx).
Qed.

(** Target A is built, building B throws an [Error]. *)
Lemma init_partial_success_witness :
  no_toplevel_failure example_world loaded (init_message None [target_a; target_b]) ∧
  ∃ st', init example_world (init_message None [target_a; target_b]) loaded = Ok tt st'.
Proof.
  assert (Hok : no_toplevel_failure example_world loaded
                  (init_message None [target_a; target_b])).
  { split; [exact I|]. split; [by repeat split|]. split; [|reflexivity].
    repeat constructor; by intros err [= <-]. }
  split; [exact Hok|].
  destruct (init_partial_success example_world loaded
              (init_message None [target_a; target_b]) 1 eq_refl Hok eq_refl
              (conj (le_n 1) (le_n 2)))
    as (st' & _ & _ & _ & _ & Hrun & _).
  exists st'. exact Hrun.
Defined.

Example scenario_a_b :
  control_messages
    (log (final (deliver example_world (init_message None [target_a; target_b]) loaded))) =
  [{| out_type := "ready";
      out_errors := JArray [JArray [JString "/b/vitest.config.ts";
                                    JString "Error: no config"]] |}].
Proof. by vm_compute. Qed.

(** What is thrown need not be an [Error]: building S throws a string,
    whose [stack] is [undefined], and that is what the entry holds. *)
Example scenario_a_s :
  control_messages
    (log (final (deliver example_world (init_message None [target_a; target_s]) loaded))) =
  [{| out_type := "ready";
      out_errors := JArray [JArray [JString "/s/vitest.config.ts"; JUndefined]] |}].
Proof. by vm_compute. Qed.

(** X19.  Total failure.  Take an [init] message all of whose N targets
    fail engine construction, delivered to a process whose only
    listener is [init], in a run where nothing reaches the outer [catch]:
    the loader registers, every [process.chdir] succeeds, and no
    construction fails with [undefined] or [null].  The worker sends
    exactly one control message, an [error] whose list has N entries, the
    pairs of identity and [stack] of the N targets in payload order; no
    engine is added, no channel is made and no adapter is wired; no
    listener and no new tick is left behind, so whatever messages arrive
    afterwards change nothing and send nothing. *)
Theorem init_total_failure w st data :
  msg_type data = "init" →
  no_toplevel_failure w st data →
  listeners st = [L_init] →
  Forall (fun meta => failed w meta) (msg_meta data) →
  ∃ st' evs errors,
    init w data st = Ok tt st' ∧
    log st' = log st ++ evs ∧
    control_messages evs = [{| out_type := "error"; out_errors := JArray errors |}] ∧
    length errors = length (msg_meta data) ∧
    Forall2
      (fun meta entry =>
         ∃ stack,
           construct w meta = inl (Thrown stack) ∧
           entry = JArray [JString (meta_id meta);
                           match stack with
                           | Some s => JString s
                           | None => JUndefined
                           end])
      (msg_meta data) errors ∧
    engines st' = engines st ∧
    channels st' = channels st ∧
    channels_made evs = [] ∧
    Forall (fun r => this_rpc r = None) (drop (length (reporters st)) (reporters st')) ∧
    listeners st' = [] ∧
    ticks st' = ticks st ∧
    ∀ ms, deliver_all w ms st' = Ok tt st'.
Proof.
  intros Htype Hok Hls Hall.
  pose proof Hok as (_ & _ & Hcaught & _).
  rewrite (init_ok _ _ _ Htype Hok).
  rewrite (all_failed_entries _ _ Hall), (all_failed_engines _ _ Hall).
  eexists _, _, (startup_errors w (msg_meta data)).
  split; [reflexivity|]. cbn [log engines reporters channels listeners ticks].
  split; [reflexivity|].
  split.
  { by rewrite !control_messages_app, loader_log_control, loop_log_control. }
  split; [by apply all_failed_errors|].
  split.
  { pose proof (startup_errors_failed w _ Hcaught) as Hentries.
    by rewrite (all_failed_filter _ _ Hall) in Hentries. }
  split; [by rewrite app_nil_r|].
  split; [done|].
  split.
  { by rewrite !channels_made_app, loader_log_channels, loop_log_channels. }
  split.
  { rewrite drop_app_length. apply new_reporters_unwired. }
  split; [by rewrite Hls|].
  split; [done|].
  intros ms. apply deliver_all_no_listeners. cbn. by rewrite Hls.
Qed.

Lemma init_total_failure_witness :
  no_toplevel_failure example_world loaded (init_message None [target_b; target_c]) ∧
  Forall (fun meta => failed example_world meta) [target_b; target_c] ∧
  ∃ st', init example_world (init_message None [target_b; target_c]) loaded = Ok tt st'.
Proof.
  assert (Hok : no_toplevel_failure example_world loaded
                  (init_message None [target_b; target_c])).
  { split; [exact I|]. split; [by repeat split|]. split; [|reflexivity].
    repeat constructor; by intros err [= <-]. }
  assert (Hall : Forall (fun meta => failed example_world meta) [target_b; target_c]).
  { repeat constructor. }
  split; [exact Hok|]. split; [exact Hall|].
  destruct (init_total_failure example_world loaded
              (init_message None [target_b; target_c]) eq_refl Hok eq_refl Hall)
    as (st' & _ & _ & Hrun & _).
  exists st'. exact Hrun.
Defined.

(** X20.  Failure isolation.  In a run where nothing reaches the outer
    [catch] (the loader registers, every [process.chdir]
    succeeds, and no construction fails with [undefined] or [null]), every
    target of the payload has its construction attempted, once and in
    payload order, whatever happened to the targets before it; and the
    error list of the one message sent holds exactly one entry for each
    target whose construction threw, in payload order: the pair of the
    target's identity and the [stack] of what was thrown. *)
Theorem init_failure_isolated w st data :
  msg_type data = "init" →
  no_toplevel_failure w st data →
  ∃ st' evs type errors,
    init w data st = Ok tt st' ∧
    log st' = log st ++ evs ∧
    imports evs = meta_vitestNodePath <$> msg_meta data ∧
    chdirs evs = ((fun meta => dirname w (meta_id meta)) <$> msg_meta data) ++ [cwd st] ∧
    control_messages evs = [{| out_type := type; out_errors := JArray errors |}] ∧
    Forall2
      (fun meta entry =>
         ∃ stack,
           construct w meta = inl (Thrown stack) ∧
           entry = JArray [JString (meta_id meta);
                           match stack with
                           | Some s => JString s
                           | None => JUndefined
                           end])
      (filter (fun meta => failed w meta) (msg_meta data)) errors.
Proof.
  intros Htype Hok. pose proof Hok as (_ & _ & Hcaught & _).
  rewrite (init_ok _ _ _ Htype Hok).
  destruct (new_entries w (msg_meta data) (length (engines st)) (length (reporters st)))
    as [|v vitest].
  - eexists _, _, "error", (startup_errors w (msg_meta data)).
    split; [reflexivity|]. cbn [log]. split; [reflexivity|].
    rewrite !imports_app, !chdirs_app, !control_messages_app.
    rewrite loader_log_imports, loader_log_chdirs, loader_log_control.
    rewrite loop_log_imports, loop_log_chdirs, loop_log_control.
    cbn. rewrite app_nil_r. repeat split. by apply startup_errors_failed.
  - eexists _, _, "ready", (startup_errors w (msg_meta data)).
    split; [reflexivity|]. cbn [log]. split; [reflexivity|].
    rewrite !imports_app, !chdirs_app, !control_messages_app.
    rewrite loader_log_imports, loader_log_chdirs, loader_log_control.
    rewrite loop_log_imports, loop_log_chdirs, loop_log_control.
    cbn. rewrite app_nil_r. repeat split. by apply startup_errors_failed.
Qed.

Lemma init_failure_isolated_witness :
  no_toplevel_failure example_world loaded
    (init_message None [target_b; target_a; target_c]) ∧
  ∃ st', init example_world (init_message None [target_b; target_a; target_c]) loaded
         = Ok tt st'.
Proof.
  assert (Hok : no_toplevel_failure example_world loaded
                  (init_message None [target_b; target_a; target_c])).
  { split; [exact I|]. split; [by repeat split|]. split; [|reflexivity].
    repeat constructor; by intros err [= <-]. }
  split; [exact Hok|].
  destruct (init_failure_isolated example_world loaded
              (init_message None [target_b; target_a; target_c]) eq_refl Hok)
    as (st' & _ & _ & _ & Hrun & _).
  exists st'. exact Hrun.
Defined.

Example scenario_b_a_c :
  control_messages
    (log (final (deliver example_world
                   (init_message None [target_b; target_a; target_c]) loaded))) =
  [{| out_type := "ready";
      out_errors :=
        JArray [JArray [JString "/b/vitest.config.ts"; JString "Error: no config"];
                JArray [JString "/c/vitest.config.ts"; JString "Error: no config"]] |}].
Proof. reflexivity. Qed.

(** X5.  [init] is single-shot.  Once an [init] message has been handled
    by a process whose only listener was [init], however the handling
    ended, [init] no longer listens, and a further message of any type
    starts nothing.  The bootstrap made at most one channel.  If it made
    none, a further message has no effect at all; if it made one, the
    message is handed to that channel and nothing else happens. *)
Theorem init_is_single_shot w st data :
  msg_type data = "init" →
  listeners st = [L_init] →
  let st' := final (init w data st) in
  (L_init ∉ listeners st') ∧
  (channels st' = channels st ∨ ∃ vitestById, channels st' = channels st ++ [vitestById]) ∧
  (channels st' = channels st → ∀ m2, deliver w m2 st' = Ok tt st') ∧
  (∀ vitestById, channels st' = channels st ++ [vitestById] →
     ∀ m2, deliver w m2 st' =
             Ok tt (set_log (log st' ++ [IO_dispatch (length (channels st)) m2]) st')).
Proof.
  intros Htype Hls. cbn zeta.
  destruct (init_summary w data st Htype)
    as (rest & sent & _ & _ & _ & _ & _ & _ & Hcase).
  assert (Hoff : listeners_after_off (listeners st) = []) by (by rewrite Hls).
  assert (Hnone : ∀ st1 : State, listeners st1 = [] → ∀ m2, deliver w m2 st1 = Ok tt st1).
  { intros st1 Hl m2. unfold deliver, bind, get. by rewrite Hl. }
  assert (Hne : ∀ vb, channels st ≠ channels st ++ [vb]).
  { intros vb Heq. apply (f_equal length) in Heq. rewrite length_app in Heq. cbn in Heq. lia. }
  destruct Hcase as [(st' & m & vb & -> & _ & _ & _ & _ & Hlisteners & Hch)|
                     [(st' & m & -> & _ & _ & _ & Hlisteners & Hch)|
                      (err & st1 & _ & _ & -> & _ & _ & Hlisteners & Hch)]];
    cbn [final]; rewrite Hoff in Hlisteners; cbn in Hlisteners.
  - split; [rewrite Hlisteners; by intros [=]%list_elem_of_singleton|].
    split; [right; by exists vb|].
    split; [intros Heq; rewrite Heq in Hch; by apply Hne in Hch|].
    intros _ _ m2. unfold deliver, bind, get. rewrite Hlisteners. reflexivity.
  - split; [rewrite Hlisteners; apply not_elem_of_nil|].
    split; [by left|]. split; [intros _; by apply Hnone|].
    intros vb Heq. rewrite Hch in Heq. by apply Hne in Heq.
  - split; [rewrite Hlisteners; apply not_elem_of_nil|].
    split; [by left|]. split; [intros _; by apply Hnone|].
    intros vb Heq. rewrite Hch in Heq. by apply Hne in Heq.
Qed.

Lemma init_is_single_shot_witness :
  L_init ∉ listeners
             (final (init example_world (init_message None [target_a; target_b]) loaded)).
Proof.
  exact (proj1 (init_is_single_shot example_world loaded
                  (init_message None [target_a; target_b]) eq_refl eq_refl)).
Defined.

(** X6.  Until [init] arrives, messages of other types are ignored: they
    leave the freshly loaded process exactly as it is, with [init] still
    listening, so an [init] message that follows them is handled as if it
    had come first. *)
Theorem other_messages_ignored w ms dir heap :
  Forall (fun m => msg_type m ≠ "init") ms →
  deliver_all w ms (load dir heap) = Ok tt (load dir heap) ∧
  ∀ data,
    (deliver_all w ms ;;; deliver w data) (load dir heap) = deliver w data (load dir heap).
Proof.
  intros Hall.
  assert (Hsame : deliver_all w ms (load dir heap) = Ok tt (load dir heap)).
  { unfold deliver_all. induction Hall as [|m ms Hm _ IH]; [done|].
    cbn [forEach]. unfold bind. by rewrite deliver_other. }
  split; [exact Hsame|]. intros data. unfold bind. by rewrite Hsame.
Qed.

Lemma other_messages_ignored_witness :
  deliver_all example_world
    [{| msg_type := "ping"; msg_loader := None; msg_meta := [target_a] |}]
    loaded = Ok tt loaded.
Proof.
  apply (other_messages_ignored example_world _ "/home" example_errors).
  repeat constructor. discriminate.
Defined.

(** ** The channel and the adapters a bootstrap leaves *)

Lemma fromEntries_snoc kvs k v :
  fromEntries (kvs ++ [(k, v)]) = <[k := v]> (fromEntries kvs).
Proof. unfold fromEntries. by rewrite foldl_app. Qed.

Lemma fromEntries_absent (kvs : list (string * nat)) k :
  k ∉ kvs.*1 → fromEntries kvs !! k = None.
Proof.
  induction kvs as [|[k' v'] kvs IH] using rev_ind; intros Hnotin; [done|].
  rewrite fromEntries_snoc. rewrite fmap_app in Hnotin. cbn in Hnotin.
  rewrite lookup_insert_ne; [apply IH|]; set_solver.
Qed.

Lemma fromEntries_last (kvs1 kvs2 : list (string * nat)) k v :
  k ∉ kvs2.*1 → fromEntries (kvs1 ++ (k, v) :: kvs2) !! k = Some v.
Proof.
  induction kvs2 as [|[k' v'] kvs2 IH] using rev_ind; intros Hnotin.
  - rewrite fromEntries_snoc. apply lookup_insert_eq.
  - rewrite fmap_app in Hnotin. cbn in Hnotin.
    replace (kvs1 ++ (k, v) :: kvs2 ++ [(k', v')])
      with ((kvs1 ++ (k, v) :: kvs2) ++ [(k', v')]) by (by rewrite <- app_assoc).
    rewrite fromEntries_snoc, lookup_insert_ne; [apply IH|]; set_solver.
Qed.

Lemma fromEntries_present (kvs : list (string * nat)) k v :
  fromEntries kvs !! k = Some v → (k, v) ∈ kvs.
Proof.
  induction kvs as [|[k' v'] kvs IH] using rev_ind; [done|].
  rewrite fromEntries_snoc. destruct (decide (k' = k)) as [->|Hne].
  - rewrite lookup_insert_eq. intros [= ->]. set_solver.
  - rewrite lookup_insert_ne by done. intros H. set_solver.
Qed.

Lemma new_entries_app w metas1 metas2 neng nrep :
  ∃ neng' nrep',
    new_entries w (metas1 ++ metas2) neng nrep =
    new_entries w metas1 neng nrep ++ new_entries w metas2 neng' nrep' ∧
    neng' = neng + length (new_entries w metas1 neng nrep).
Proof.
  revert neng nrep. induction metas1 as [|meta rest IH]; intros neng nrep.
  - exists neng, nrep. cbn. split; [done|lia].
  - cbn. destruct (import_fails w (meta_vitestNodePath meta)); [apply IH|].
    destruct (construct w meta).
    + apply IH.
    + destruct (IH (S neng) (S nrep)) as (neng' & nrep' & -> & ->).
      eexists _, _. split; [reflexivity|]. cbn. lia.
Qed.

Lemma vitestById_of_last (before after : list Entry) v :
  entry_id v ∉ entry_id <$> after →
  vitestById_of (before ++ v :: after) !! entry_id v = Some (entry_vitest v).
Proof.
  intros Hnotin. unfold vitestById_of. rewrite fmap_app, fmap_cons.
  apply fromEntries_last. by rewrite <- list_fmap_compose.
Qed.

Lemma vitestById_of_present (vitest : list Entry) id eng :
  vitestById_of vitest !! id = Some eng →
  ∃ v, v ∈ vitest ∧ entry_id v = id ∧ entry_vitest v = eng.
Proof.
  intros Hlookup%fromEntries_present.
  apply list_elem_of_fmap in Hlookup as (v & [= -> ->] & Hv). by exists v.
Qed.

Lemma vitestById_of_shadowed (before after : list Entry) v :
  NoDup (entry_vitest <$> (before ++ v :: after)) →
  entry_id v ∈ entry_id <$> after →
  vitestById_of (before ++ v :: after) !! entry_id v ≠ Some (entry_vitest v).
Proof.
  intros Hnd Hin.
  apply list_elem_of_split_r in Hin as (ids1 & ids2 & Hsplit & Hlast).
  apply fmap_app_inv in Hsplit as (a1 & a2' & -> & Ha2 & ->).
  symmetry in Ha2. apply fmap_cons_inv in Ha2 as (v2 & a2 & Hid & -> & ->).
  replace (before ++ v :: a1 ++ v2 :: a2) with ((before ++ v :: a1) ++ v2 :: a2)
    by (by rewrite <- app_assoc).
  rewrite Hid in Hlast |- *. rewrite vitestById_of_last by done.
  intros [= Heq].
  rewrite fmap_app, fmap_cons, fmap_app, fmap_cons in Hnd.
  apply NoDup_app in Hnd as (_ & _ & Hnd). apply NoDup_cons in Hnd as [Hnotin _].
  apply Hnotin. rewrite <- Heq. set_solver.
Qed.

Lemma wire_lookup_other rpc (refs : list nat) : ∀ (rs : list VSCodeReporter) (ref : nat),
  ref ∉ refs → wire rpc refs rs !! ref = rs !! ref.
Proof.
  unfold wire. induction refs as [|a refs IH]; intros rs ref Hnotin; cbn; [done|].
  apply not_elem_of_cons in Hnotin as [Hne Hnotin].
  rewrite IH by done. by apply list_lookup_alter_ne.
Qed.

Lemma new_reporters_lookup w metas : ∀ neng (rs : list VSCodeReporter) (i : nat) r,
  (rs ++ new_reporters w metas neng) !! i = Some r →
  (length rs ≤ i)%nat →
  r = blank ∨
  ∃ v, v ∈ new_entries w metas neng (length rs) ∧ entry_reporter v = i ∧
       r = {| this_rpc := None; this_ctx := Some (entry_vitest v);
              this_id := Some (entry_id v) |}.
Proof.
  induction metas as [|meta rest IH]; intros neng rs i r Hlookup Hle; cbn in *.
  - rewrite app_nil_r in Hlookup. apply lookup_lt_Some in Hlookup. lia.
  - destruct (import_fails w (meta_vitestNodePath meta)); [by eapply IH|].
    destruct (construct w meta).
    + destruct (decide (i = length rs)) as [->|Hne].
      * rewrite list_lookup_middle in Hlookup by done. left. congruence.
      * specialize (IH neng (rs ++ [blank]) i r).
        rewrite length_app, <- app_assoc in IH. cbn in IH. rewrite Nat.add_1_r in IH.
        apply IH; [done|lia].
    + destruct (decide (i = length rs)) as [->|Hne].
      * rewrite list_lookup_middle in Hlookup by done. right.
        eexists. split; [apply list_elem_of_here|]. split; [done|].
        by injection Hlookup as <-.
      * match type of Hlookup with context [?r0 :: new_reporters _ _ _] =>
          specialize (IH (S neng) (rs ++ [r0]) i r) end.
        rewrite length_app, <- app_assoc in IH. cbn in IH. rewrite Nat.add_1_r in IH.
        destruct IH as [Hb|(v' & Hv & Hi & Hr)]; [done|lia|by left|].
        right. exists v'. split; [by apply list_elem_of_further|done].
Qed.

(** X7.  The channel is keyed by [Object.fromEntries] over the identities
    of the engines built.  It reaches nothing but those engines; under
    each identity it reaches the engine built last for it; so an engine
    built earlier under an identity that comes again is live but cannot be
    reached by identity.  When the identities of the targets built are
    pairwise distinct, every engine is reached under its own. *)
Theorem channel_reaches_last_engine w st data :
  msg_type data = "init" →
  no_toplevel_failure w st data →
  Exists (fun meta => constructed w meta) (msg_meta data) →
  ∃ st' vitest vitestById,
    init w data st = Ok tt st' ∧
    channels st' = channels st ++ [vitestById] ∧
    entry_meta <$> vitest = filter (fun meta => constructed w meta) (msg_meta data) ∧
    entry_vitest <$> vitest = seq (length (engines st)) (length vitest) ∧
    (∀ id eng, vitestById !! id = Some eng →
       ∃ v, v ∈ vitest ∧ entry_id v = id ∧ entry_vitest v = eng) ∧
    (∀ before v after, vitest = before ++ v :: after →
       entry_id v ∉ entry_id <$> after →
       vitestById !! entry_id v = Some (entry_vitest v)) ∧
    (∀ before v after, vitest = before ++ v :: after →
       entry_id v ∈ entry_id <$> after →
       vitestById !! entry_id v ≠ Some (entry_vitest v)) ∧
    (NoDup (meta_id <$> filter (fun meta => constructed w meta) (msg_meta data)) →
     ∀ v, v ∈ vitest → vitestById !! entry_id v = Some (entry_vitest v)).
Proof.
  intros Htype Hok Hex. rewrite (init_ok _ _ _ Htype Hok).
  pose proof (new_entries_meta w (msg_meta data) (length (engines st))
                (length (reporters st))) as Hmeta.
  pose proof (new_entries_vitest w (msg_meta data) (length (engines st))
                (length (reporters st))) as Hvit.
  destruct (new_entries w (msg_meta data) (length (engines st)) (length (reporters st)))
    as [|v0 vitest0] eqn:Hentries.
  { apply new_entries_nil in Hentries. contradiction. }
  set (vitest := v0 :: vitest0) in *.
  eexists _, vitest, (vitestById_of vitest). split; [reflexivity|].
  cbn [channels]. split; [done|]. split; [done|]. split; [done|].
  split; [apply vitestById_of_present|].
  split; [intros before v after -> Hlast; by apply vitestById_of_last|].
  split.
  { intros before v after Heq Hin. rewrite Heq. apply vitestById_of_shadowed; [|done].
    rewrite <- Heq, Hvit. apply NoDup_seq. }
  intros Hnd v Hv.
  apply list_elem_of_split in Hv as (before & after & Heq). rewrite Heq.
  apply vitestById_of_last.
  rewrite <- Hmeta, Heq in Hnd.
  rewrite !fmap_app, !fmap_cons in Hnd.
  apply NoDup_app in Hnd as (_ & _ & Hnd). apply NoDup_cons in Hnd as [Hnotin _].
  by rewrite <- list_fmap_compose in Hnotin.
Qed.

Lemma channel_reaches_last_engine_witness :
  ∃ st', init example_world (init_message None [target_a; target_b; target_a]) loaded
         = Ok tt st'.
Proof.
  assert (Hok : no_toplevel_failure example_world loaded
                  (init_message None [target_a; target_b; target_a])).
  { split; [exact I|]. split; [by repeat split|]. split; [|reflexivity].
    repeat constructor; by intros err [= <-]. }
  destruct (channel_reaches_last_engine example_world loaded
              (init_message None [target_a; target_b; target_a]) eq_refl Hok
              ltac:(by left))
    as (st' & _ & _ & Hrun & _).
  exists st'. exact Hrun.
Defined.

(** The same target twice: two engines are built, the channel knows the
    second. *)
Example duplicate_identity :
  let st' := final (deliver example_world
                      (init_message None [target_a; target_b; target_a]) loaded) in
  length (engines st') = 2 ∧
  ∃ vitestById, channels st' = [vitestById] ∧
                vitestById !! "/a/vitest.config.ts" = Some 1 ∧
                size vitestById = 1.
Proof.
  intros st'. split; [by vm_compute|].
  exists (default ∅ (head (channels st'))).
  split; [vm_compute; reflexivity|]. split; vm_compute; reflexivity.
Qed.

(** X8.  When [init] has run without anything reaching the outer
    [catch], each adapter it made is in one of two states.  Either its
    engine could not be built, and then it has no engine, no identity and
    no channel; or it belongs to an entry of the [vitest] array, and then
    it holds that entry's engine and identity and is wired to the one new
    channel.  No adapter has an engine but no channel.  Adapters that
    existed before are as they were. *)
Theorem adapters_after_init w st data :
  msg_type data = "init" →
  no_toplevel_failure w st data →
  ∃ st' vitest,
    init w data st = Ok tt st' ∧
    entry_meta <$> vitest = filter (fun meta => constructed w meta) (msg_meta data) ∧
    (∀ (i : nat) r, (length (reporters st) ≤ i)%nat → reporters st' !! i = Some r →
       r = blank ∨
       ∃ v, v ∈ vitest ∧ entry_reporter v = i ∧
            r = {| this_rpc := Some (length (channels st));
                   this_ctx := Some (entry_vitest v);
                   this_id := Some (entry_id v) |}) ∧
    (∀ (i : nat), (i < length (reporters st))%nat → reporters st' !! i = reporters st !! i) ∧
    (∀ (i : nat) r, reporters st' !! i = Some r → (length (reporters st) ≤ i)%nat →
       this_ctx r ≠ None → this_rpc r ≠ None).
Proof.
  intros Htype Hok.
  pose proof (new_entries_meta w (msg_meta data) (length (engines st))
                (length (reporters st))) as Hmeta.
  pose proof (new_entries_reporter_lt w (msg_meta data) (length (engines st))
                (length (reporters st))) as Hrefs.
  set (vitest := new_entries w (msg_meta data) (length (engines st))
                   (length (reporters st))) in *.
  set (rs' := reporters st ++ new_reporters w (msg_meta data) (length (engines st))).
  assert (Hreporters : ∃ st', init w data st = Ok tt st' ∧
    ((vitest = [] ∧ reporters st' = rs') ∨
     reporters st' = wire (length (channels st)) (entry_reporter <$> vitest) rs')).
  { rewrite (init_ok _ _ _ Htype Hok). fold vitest. destruct vitest as [|v0 vitest0] eqn:Hv.
    - eexists. split; [reflexivity|]. left. by split.
    - eexists. split; [reflexivity|]. by right. }
  destruct Hreporters as (st' & Hrun & Hrs).
  assert (Hwired : reporters st' = wire (length (channels st)) (entry_reporter <$> vitest) rs').
  { destruct Hrs as [[Hnil Heq] | Heq]; [|done]. by rewrite Heq, Hnil. }
  clear Hrs.
  assert (Hnew : ∀ (i : nat) r, (length (reporters st) ≤ i)%nat → reporters st' !! i = Some r →
       r = blank ∨
       ∃ v, v ∈ vitest ∧ entry_reporter v = i ∧
            r = {| this_rpc := Some (length (channels st));
                   this_ctx := Some (entry_vitest v);
                   this_id := Some (entry_id v) |}).
  { intros i r Hle Hlookup. rewrite Hwired in Hlookup.
    destruct (decide (i ∈ entry_reporter <$> vitest)) as [Hin|Hnotin].
    - rewrite wire_lookup in Hlookup by done.
      destruct (rs' !! i) as [r0|] eqn:Hr0; [|done]. injection Hlookup as <-.
      destruct (new_reporters_lookup w _ _ _ _ _ Hr0 Hle) as [->|(v & Hv & Hi & ->)].
      + exfalso. apply list_elem_of_fmap in Hin as (v & -> & Hv).
        pose proof (new_entries_reporters w (msg_meta data) (length (engines st))
                      (reporters st)) as Hall.
        rewrite Forall_forall in Hall. specialize (Hall v Hv).
        fold rs' in Hall. rewrite Hr0 in Hall. discriminate.
      + right. by exists v.
    - rewrite wire_lookup_other in Hlookup by done.
      destruct (new_reporters_lookup w _ _ _ _ _ Hlookup Hle) as [->|(v & Hv & Hi & ->)].
      + by left.
      + exfalso. apply Hnotin. apply list_elem_of_fmap. by exists v. }
  exists st', vitest. split; [done|]. split; [done|]. split; [exact Hnew|].
  split.
  - intros i Hlt. rewrite Hwired, wire_lookup_other.
    + unfold rs'. by rewrite lookup_app_l.
    + intros (v & -> & Hv)%list_elem_of_fmap.
      rewrite Forall_forall in Hrefs. specialize (Hrefs v Hv). lia.
  - intros i r Hlookup Hle Hctx.
    destruct (Hnew i r Hle Hlookup) as [->|(v & _ & _ & ->)]; [done|]. by cbn.
Qed.

Lemma adapters_after_init_witness :
  ∃ st', init example_world (init_message None [target_b; target_a]) loaded = Ok tt st'.
Proof.
  assert (Hok : no_toplevel_failure example_world loaded
                  (init_message None [target_b; target_a])).
  { split; [exact I|]. split; [by repeat split|]. split; [|reflexivity].
    repeat constructor; by intros err [= <-]. }
  destruct (adapters_after_init example_world loaded
              (init_message None [target_b; target_a]) eq_refl Hok)
    as (st' & _ & Hrun & _).
  exists st'. exact Hrun.
Defined.


(** ** The function [initVitest] *)

(** X9.   The function [initVitest] is all or nothing.  When it returns,
    exactly one engine and one adapter have been added, the adapter is
    initialised on that engine under the target's identity, and the entry
    returned refers to both.  When it throws, no engine has been added and
    the adapter it may have made is blank.  Either way it leaves the
    working directory, the listeners, the channels, the tick queue and the
    error objects alone. *)
Theorem initVitest_all_or_nothing w meta st :
  match initVitest w meta st with
  | Ok v st' =>
      v = {| entry_vitest := length (engines st);
             entry_reporter := length (reporters st);
             entry_meta := meta |} ∧
      (∃ e, engines st' = engines st ++ [inject_setupFile w e] ∧
            createVitest w (meta_vitestNodePath meta) (vitest_options w meta) = inr e) ∧
      reporters st' =
        reporters st ++
        [{| this_rpc := None; this_ctx := Some (length (engines st));
            this_id := Some (meta_id meta) |}]
  | Throw err st' =>
      engines st' = engines st ∧
      (reporters st' = reporters st ∨ reporters st' = reporters st ++ [blank])
  end ∧
  let st' := final (initVitest w meta st) in
  process_cwd st' = process_cwd st ∧ cwd st' = cwd st ∧
  listeners st' = listeners st ∧ channels st' = channels st ∧
  ticks st' = ticks st ∧ error_objects st' = error_objects st ∧
  control_messages (log st') = control_messages (log st).
Proof.
  destruct (import_fails w (meta_vitestNodePath meta)) as [err|] eqn:Himp.
  { rewrite (initVitest_import_fails _ _ _ _ Himp). cbn.
    rewrite control_messages_app, app_nil_r. repeat split; try done. by left. }
  destruct (createVitest w (meta_vitestNodePath meta) (vitest_options w meta))
    as [err|e] eqn:Hcreate.
  - rewrite (initVitest_create_fails _ _ _ _ Himp Hcreate). cbn.
    rewrite control_messages_app, app_nil_r. repeat split; try done. by right.
  - rewrite (initVitest_ok _ _ _ _ Himp Hcreate). cbn.
    rewrite control_messages_app, app_nil_r. repeat split; try done. by exists e.
Qed.

(** ** The adapter before it is wired *)



(** X11.  [onFinished] reads [this.rpc] only when its tick runs.  Called
    on an adapter that is initialised but not wired yet, it does not throw:
    it queues the tick.  If [initRpc] comes before the end of the run, the
    [finished] event is posted over the channel given then, with the flag
    computed at the call; if it does not, the tick throws and nothing is
    posted. *)
Theorem finished_waits_for_channel st this r e files errors :
  initialised st this r e →
  this_rpc r = None →
  ticks st = [] →
  (∀ channel, ∃ st',
     (Reporter.onFinished this files errors ;;;
      Reporter.initRpc this channel ;;;
      process_ticks) st = Ok tt st' ∧
     posts (log st') =
       posts (log st) ++ [(channel, rpc_onFinished (this_id r) files errors (collecting e))] ∧
     ticks st' = []) ∧
  (∃ err st',
     (Reporter.onFinished this files errors ;;; process_ticks) st = Throw err st' ∧
     log st' = log st).
Proof.
  intros Hinit Hrpc Hq. pose proof Hinit as [Hr _]. split.
  - intros channel. unfold bind at 1. rewrite (onFinished_ok _ _ _ _ _ _ Hinit).
    unfold bind at 1. rewrite initRpc_ok by (cbn; by eapply lookup_lt_Some).
    cbn [reporters set_ticks set_reporters]. rewrite Hq. cbn.
    unfold process_ticks, bind, get. cbn. unfold bind, modify. cbn.
    erewrite run_tick_ok; cycle 1.
    { cbn. rewrite list_lookup_alter_eq, Hr. reflexivity. }
    { reflexivity. }
    unfold ret. eexists. split; [reflexivity|]. cbn. split; [|done].
    unfold posts. by rewrite omap_app.
  - unfold bind at 1. rewrite (onFinished_ok _ _ _ _ _ _ Hinit). rewrite Hq. cbn.
    unfold process_ticks, bind, get. cbn. unfold bind, modify. cbn.
    unfold run_tick, Reporter.rpc_post, bind, read_reporter. cbn.
    rewrite Hr, Hrpc. by eexists _, _.
Qed.

Lemma finished_waits_for_channel_witness :
  ∃ st',
    (Reporter.onFinished 0 (Some ["/a/x.test.ts"]) None ;;;
     Reporter.initRpc 0 0 ;;;
     process_ticks)
      (set_reporters [{| this_rpc := None; this_ctx := Some 0;
                         this_id := Some "/a/vitest.config.ts" |}] (watching None))
    = Ok tt st'.
Proof.
  destruct (finished_waits_for_channel
              (set_reporters [{| this_rpc := None; this_ctx := Some 0;
                                 this_id := Some "/a/vitest.config.ts" |}] (watching None))
              0 _ _ (Some ["/a/x.test.ts"]) None
              (conj eq_refl (ex_intro _ 0 (conj eq_refl eq_refl))) eq_refl eq_refl)
    as [Hwired _].
  destruct (Hwired 0) as (st' & Hrun & _).
  exists st'. exact Hrun.
Defined.

(** ** Runs of reporter calls *)










Example run_calls_example :
  posts (log (final (run_calls example_world
      [(0, Call_onFinished (Some ["/a/x.test.ts"]) None);
       (0, Call_onUserConsoleLog "hello");
       (0, Call_onCollected (Some ["/a/x.test.ts"]))]
      (watching None)))) =
  [(0, rpc_onConsoleLog (Some "/a/vitest.config.ts") "hello");
   (0, rpc_onCollected (Some "/a/vitest.config.ts") (Some ["/a/x.test.ts"]) false);
   (0, rpc_onFinished (Some "/a/vitest.config.ts") (Some ["/a/x.test.ts"]) None false)].
Proof. reflexivity. Qed.

(** ** The plugin hook, repeated initialisation, batches without errors *)

(** X13.  The plugin's [configResolved] hook puts the stub server in
    place of whatever [server.hmr] was, and makes sure [setupFilePath] is
    in [server.fs.allow]: the entries that were there stay, in order; the
    path is added at the end only if it was missing, so it is never
    entered twice and a list without repetitions stays one.  Running the
    hook again changes nothing. *)
Theorem configResolved_allows_once w config :
  let config' := configResolved w config in
  server_hmr config' = Hmr_options (Some StubServer) ∧
  setupFilePath w ∈ server_fs_allow config' ∧
  server_fs_allow config `prefix_of` server_fs_allow config' ∧
  (∀ path, path ∈ server_fs_allow config' →
           path ∈ server_fs_allow config ∨ path = setupFilePath w) ∧
  (setupFilePath w ∈ server_fs_allow config →
   server_fs_allow config' = server_fs_allow config) ∧
  (NoDup (server_fs_allow config) → NoDup (server_fs_allow config')) ∧
  configResolved w config' = config'.
Proof.
  unfold configResolved. cbn.
  destruct (decide (setupFilePath w ∈ server_fs_allow config)) as [Hin|Hnotin].
  - rewrite (bool_decide_eq_true_2 _ Hin). cbn. rewrite (bool_decide_eq_true_2 _ Hin).
    repeat split; try done. intros path Hp. by left.
  - rewrite (bool_decide_eq_false_2 _ Hnotin). cbn.
    assert (Hnow : setupFilePath w ∈ server_fs_allow config ++ [setupFilePath w])
      by (apply elem_of_app; right; apply list_elem_of_here).
    rewrite (bool_decide_eq_true_2 _ Hnow).
    repeat split; try done.
    + by apply prefix_app_r.
    + intros path [Hp|Hp%list_elem_of_singleton]%elem_of_app; [by left|by right].
    + intros Hnd. apply NoDup_app. split; [done|]. split; [|apply NoDup_singleton].
      intros x Hx ->%list_elem_of_singleton. contradiction.
Qed.

Lemma config_refs_inject w e : config_refs (inject_setupFile w e) = config_refs e.
Proof.
  rewrite inject_setupFile_fold.
  destruct (append_fold_rest w (config_refs e) e) as (Hc & Hp & _).
  unfold config_refs at 1. by rewrite Hc, Hp.
Qed.

Lemma Reporter_initVitest_ok w st this ctx id r e :
  reporters st !! this = Some r →
  engines st !! ctx = Some e →
  Reporter.initVitest w this ctx id st =
    Ok tt
      (set_engines (<[ctx := inject_setupFile w e]> (engines st))
         (set_reporters
            (<[this := {| this_rpc := this_rpc r; this_ctx := Some ctx;
                          this_id := Some id |}]> (reporters st))
            st)).
Proof.
  intros Hr He.
  unfold Reporter.initVitest, bind, read_reporter, write_reporter, read_engine,
    write_engine, modify. rewrite Hr. cbn. by rewrite He.
Qed.

(** X14.  [initVitest] does not look at what [setupFiles] already holds:
    calling it again on the same adapter and engine appends the path
    again.  After two calls every configuration object of the engine
    holds its old list followed by twice as many copies of
    [setupFilePath] as after one. *)
Theorem initVitest_twice_appends_twice w st this ctx ident r e :
  reporters st !! this = Some r →
  engines st !! ctx = Some e →
  ∃ st2 e2,
    (Reporter.initVitest w this ctx ident ;;; Reporter.initVitest w this ctx ident) st
      = Ok tt st2 ∧
    engines st2 !! ctx = Some e2 ∧
    reporters st2 !! this =
      Some {| this_rpc := this_rpc r; this_ctx := Some ctx; this_id := Some ident |} ∧
    ∀ cfg, cfg ∈ config_refs e →
      setupFiles (cfg_objects e2 cfg) =
      Some (default [] (setupFiles (cfg_objects e cfg)) ++
            replicate (2 * occurrences cfg (config_refs e)) (setupFilePath w)).
Proof.
  intros Hr He.
  pose proof (lookup_lt_Some _ _ _ Hr) as Hlt.
  pose proof (lookup_lt_Some _ _ _ He) as Hlt'.
  unfold bind. rewrite (Reporter_initVitest_ok _ _ _ _ _ _ _ Hr He).
  erewrite Reporter_initVitest_ok; cycle 1.
  { cbn. by apply list_lookup_insert_eq. }
  { cbn. by apply list_lookup_insert_eq. }
  eexists _, _. split; [reflexivity|]. cbn [engines reporters set_engines set_reporters].
  split; [apply list_lookup_insert_eq; by rewrite length_insert|].
  split; [apply list_lookup_insert_eq; by rewrite length_insert|].
  intros cfg Hin. pose proof (occurrences_pos _ _ Hin) as Hpos.
  rewrite (inject_setupFile_fold w (inject_setupFile w e)), append_fold_setupFiles.
  rewrite config_refs_inject, inject_setupFile_fold, append_fold_setupFiles.
  destruct (occurrences cfg (config_refs e)) as [|n]; [lia|].
  unfold appended. cbn [from_option]. unfold id at 1.
  rewrite <- app_assoc, <- replicate_add.
  do 3 f_equal. lia.
Qed.

Lemma initVitest_twice_appends_twice_witness :
  ∃ st2,
    (Reporter.initVitest example_world 0 0 "/a/vitest.config.ts" ;;;
     Reporter.initVitest example_world 0 0 "/a/vitest.config.ts") constructing = Ok tt st2.
Proof.
  destruct (initVitest_twice_appends_twice example_world constructing 0 0
              "/a/vitest.config.ts" blank example_engine eq_refl eq_refl)
    as (st2 & _ & Hrun & _).
  exists st2. exact Hrun.
Defined.


